(** * Linear regression from scratch: a verification of the notebook

    The development embeds the code cells of
    [keras/supervised_learning/Linear-Regression-Scratch.ipynb]:
    the synthetic data generation, the parameters [w] and [b], the predictor
    [net], the loss [square_loss], [get_gradient] and the gradient-descent
    loop.

    Numbers.  The notebook computes with numpy [float64] arrays.  Here every
    array entry is an exact rational in canonical form ([Qc]), and a decimal
    literal of the source is the rational it denotes: rounding, overflow and
    the propagation of [inf]/[nan] through arithmetic are not followed.  The
    two places where numpy leaves the finite numbers for a structural reason
    are kept apart: the mean of an array without elements is [NaN], and the
    division of an array by zero stops the computation with [NonFinite].
    What is proved on this embedding holds of the float64 code up to
    rounding.  The properties that depend on the ends of the float64 range
    (underflow to 0, overflow to [inf], [nan]) are proved on a second
    embedding of the same cells in IEEE 754 binary64, the module [F64].

    Arrays.  An [ndarray] has rank 0, 1 or 2, which is all the notebook uses.
    Element-wise operators follow numpy's broadcasting rule, [dot] follows
    numpy's case table, and shape errors are the [ValueError] numpy raises.

    Control.  The cells run on the global variables of the notebook, which
    are threaded as a record; the [while True] loop is run with fuel. *)

From Stdlib Require Import List ZArith QArith Qcanon Bool Arith Lia Lqa.
From Stdlib Require Qcabs Floats Uint63.
Import ListNotations.

(* ------------------------------------------------------------------ *)
(** ** Python exceptions as an error monad *)

Module Py.

Inductive error : Set :=
| ValueError          (* shapes that do not fit: broadcasting, dot, max of nothing *)
| ZeroDivisionError   (* the Python division [1.0 / 0] *)
| TypeError           (* [len] of a rank-0 array *)
| IndexError          (* [X[:, k]] outside the array *)
| NonFinite.          (* numpy goes on with inf/nan entries, the exact model stops *)

Inductive result (A : Type) : Type :=
| Ok (a : A)
| Raise (e : error).

Arguments Ok {A} a.
Arguments Raise {A} e.

Definition bind {A B : Type} (c : result A) (k : A -> result B) : result B :=
  match c with
  | Ok a => k a
  | Raise e => Raise e
  end.

End Py.

Import Py.

Notation "x <- c ;; k" := (Py.bind c (fun x => k))
  (at level 61, c at next level, right associativity).
Notation "' pat <- c ;; k" := (Py.bind c (fun x => match x with pat => k end))
  (at level 61, pat pattern, c at next level, right associativity).

(* ------------------------------------------------------------------ *)
(** ** Numbers *)

Open Scope Qc_scope.

(** A float literal of the source, read as the rational it denotes. *)
Definition fl (q : Q) : Qc := Q2Qc q.

(** A Python [int] used as a float. *)
Definition of_nat (n : nat) : Qc := Q2Qc (inject_Z (Z.of_nat n)).

(** [x < y] on floats, as a boolean. *)
Definition Qcltb (x y : Qc) : bool :=
  match x ?= y with
  | Lt => true
  | _ => false
  end.

(** The value of a float expression that may be [nan] for a structural
    reason (only [np.mean] of nothing produces one here). *)
Inductive floatv : Set :=
| Num (q : Qc)
| NaN.

(* ------------------------------------------------------------------ *)
(** ** numpy arrays of rank at most two *)

Module Np.

Inductive ndarray : Set :=
| A0 (x : Qc)                        (* shape (): a scalar              *)
| A1 (v : list Qc)                   (* shape (length v,)               *)
| A2 (c : nat) (m : list (list Qc)). (* shape (length m, c): rows of c  *)

Definition rank (a : ndarray) : nat :=
  match a with
  | A0 _ => 0
  | A1 _ => 1
  | A2 _ _ => 2
  end%nat.

(** The array seen with two axes, as broadcasting sees it: a missing
    leading axis has extent one. *)
Definition elems (a : ndarray) : list (list Qc) :=
  match a with
  | A0 x => [[x]]
  | A1 v => [v]
  | A2 _ m => m
  end.

Definition cols (a : ndarray) : nat :=
  match a with
  | A0 _ => 1%nat
  | A1 v => length v
  | A2 c _ => c
  end.

(** Back from the two-axes view to an array of rank [k]. *)
Definition pack (k c : nat) (m : list (list Qc)) : ndarray :=
  match k with
  | O => A0 (nth O (nth O m []) 0)
  | S O => A1 (nth O m [])
  | _ => A2 c m
  end.

Definition flatten (a : ndarray) : list Qc := concat (elems a).

Definition map_arr (f : Qc -> Qc) (a : ndarray) : ndarray :=
  match a with
  | A0 x => A0 (f x)
  | A1 v => A1 (map f v)
  | A2 c m => A2 c (map (map f) m)
  end.

(** *** Broadcasting *)

Fixpoint zipWithM {A B C : Type} (f : A -> B -> result C)
         (l1 : list A) (l2 : list B) : result (list C) :=
  match l1, l2 with
  | a :: l1', b :: l2' =>
      c <- f a b ;; cs <- zipWithM f l1' l2' ;; Ok (c :: cs)
  | _, _ => Ok []
  end.

(** One axis: equal extents go pairwise, an extent of one is stretched,
    anything else does not broadcast. *)
Definition bcast2 {A B C : Type} (f : A -> B -> result C)
           (l1 : list A) (l2 : list B) : result (list C) :=
  if (length l1 =? length l2)%nat then zipWithM f l1 l2
  else match l1, l2 with
       | [a], _ => zipWithM f (repeat a (length l2)) l2
       | _, [b] => zipWithM f l1 (repeat b (length l1))
       | _, _ => Raise ValueError
       end.

(** The extent of an axis of the result. *)
Definition bdim (n m : nat) : result nat :=
  if (n =? m)%nat then Ok n
  else if (n =? 1)%nat then Ok m
  else if (m =? 1)%nat then Ok n
  else Raise ValueError.

Definition bvec (f : Qc -> Qc -> Qc) (u v : list Qc) : result (list Qc) :=
  bcast2 (fun x y => Ok (f x y)) u v.

(** An element-wise binary operator ([+], [-], [*]) on two arrays. *)
Definition bop (f : Qc -> Qc -> Qc) (a b : ndarray) : result ndarray :=
  c <- bdim (cols a) (cols b) ;;
  m <- bcast2 (bvec f) (elems a) (elems b) ;;
  Ok (pack (Nat.max (rank a) (rank b)) c m).

Definition add : ndarray -> ndarray -> result ndarray := bop Qcplus.
Definition sub : ndarray -> ndarray -> result ndarray := bop Qcminus.
Definition mul : ndarray -> ndarray -> result ndarray := bop Qcmult.

(** [a ** 2] and [abs(a)] *)
Definition square (a : ndarray) : ndarray := map_arr (fun x => x ^ 2) a.
Definition abs (a : ndarray) : ndarray := map_arr Qcabs.Qcabs a.

(** [a /= s] for a float [s].  numpy divides by zero without raising and
    goes on with [inf]/[nan] entries, which the rationals do not have: the
    exact model stops there with [NonFinite], which is no Python
    exception. *)
Definition idiv (a : ndarray) (s : Qc) : result ndarray :=
  if Qc_eq_bool s 0 then Raise NonFinite
  else Ok (map_arr (fun x => x / s) a).

(** *** Reductions over all the entries *)

Definition lsum (l : list Qc) : Qc := fold_right Qcplus 0 l.

Definition sum (a : ndarray) : Qc := lsum (flatten a).

Definition mean (a : ndarray) : floatv :=
  match flatten a with
  | [] => NaN
  | l => Num (lsum l / of_nat (length l))
  end.

Definition Qcmax (x y : Qc) : Qc := if Qcltb x y then y else x.

Definition max (a : ndarray) : result Qc :=
  match flatten a with
  | [] => Raise ValueError
  | x :: l => Ok (fold_left Qcmax l x)
  end.

(** *** [len], [transpose], column slices, [dot] *)

Definition len (a : ndarray) : result nat :=
  match a with
  | A0 _ => Raise TypeError
  | A1 v => Ok (length v)
  | A2 _ m => Ok (length m)
  end.

Definition column (k : nat) (m : list (list Qc)) : list Qc :=
  map (fun r => nth k r 0) m.

Definition columns (c : nat) (m : list (list Qc)) : list (list Qc) :=
  map (fun k => column k m) (seq O c).

Definition transpose (a : ndarray) : ndarray :=
  match a with
  | A2 c m => A2 (length m) (columns c m)
  | _ => a
  end.

(** [a[:, k]] *)
Definition col (a : ndarray) (k : nat) : result ndarray :=
  match a with
  | A2 c m => if (k <? c)%nat then Ok (A1 (column k m)) else Raise IndexError
  | _ => Raise IndexError
  end.

Fixpoint dotv (u v : list Qc) : Qc :=
  match u, v with
  | x :: u', y :: v' => x * y + dotv u' v'
  | _, _ => 0
  end.

Definition dot (a b : ndarray) : result ndarray :=
  match a, b with
  | A0 _, _ | _, A0 _ => mul a b
  | A1 u, A1 v =>
      if (length u =? length v)%nat then Ok (A0 (dotv u v))
      else Raise ValueError
  | A2 c m, A1 v =>
      if (c =? length v)%nat then Ok (A1 (map (fun r => dotv r v) m))
      else Raise ValueError
  | A1 u, A2 c m =>
      if (length u =? length m)%nat then Ok (A1 (map (dotv u) (columns c m)))
      else Raise ValueError
  | A2 c1 m1, A2 c2 m2 =>
      if (c1 =? length m2)%nat
      then Ok (A2 c2 (map (fun r => map (dotv r) (columns c2 m2)) m1))
      else Raise ValueError
  end.

End Np.

Import Np.

(* ------------------------------------------------------------------ *)
(** ** The notebook *)

Module Notebook.

(** *** Synthetic data: the cell that defines [real_fn], [X] and [y] *)

Definition num_inputs : nat := 2.
Definition num_outputs : nat := 1.
Definition input_mean : list Qc := [0; 0].
Definition input_variance : list (list Qc) := [[1; 0]; [0; 1]].
Definition noise_mean : Qc := 0.
Definition noise_variance : Qc := fl 0.01.

Definition real_fn (X : ndarray) : result ndarray :=
  x0 <- col X 0 ;;
  t0 <- mul (A0 (fl 2)) x0 ;;
  x1 <- col X 1 ;;
  t1 <- mul (A0 (fl 3.4)) x1 ;;
  d <- sub t0 t1 ;;
  add d (A0 (fl 4.2)).

Section RandomSource.

(** [num_examples] is 10000 in the notebook. *)
Variable num_examples : nat.

(** [np.random], as the arrays it hands out.  The first argument counts the
    draws made so far, so that two calls with equal arguments are two
    draws; the others are the arguments of the call,
    [multivariate_normal(mean, cov, size)] and [normal(loc, scale, size)]. *)
Variable multivariate_normal :
  nat -> list Qc -> list (list Qc) -> nat -> ndarray.
Variable normal : nat -> Qc -> Qc -> nat -> ndarray.

Definition generate : result (ndarray * ndarray) :=
  let X := multivariate_normal 0 input_mean input_variance num_examples in
  m <- max X ;;
  X <- idiv X m ;;
  let noise := normal 1 noise_mean noise_variance num_examples in
  r <- real_fn X ;;
  y <- add r noise ;;
  Ok (X, y).

(** The cell that allocates the parameters. *)
Definition init_params : ndarray * ndarray :=
  let w := multivariate_normal 2 input_mean input_variance num_examples in
  let b := normal 3 0 1 num_examples in
  (w, b).

End RandomSource.

(** *** The global variables the later cells read and assign *)

Inductive line : Set :=
| Converged                                 (* print("Converged.") *)
| Iteration (epochs : Z) (loss : floatv).   (* "Iteration: %d - Loss: %.4f" *)

Record globals : Set := mkGlobals {
  w : ndarray;
  b : ndarray;
  X : ndarray;
  y : ndarray;
  lr : Qc;
  tolerance : Qc;
  epochs : Z;
  gradient : option ndarray;
  loss : option floatv;
  new_w : option ndarray;
  stdout : list line
}.

(** [gradient, loss = ...] *)
Definition set_gradient_loss (g : ndarray) (l : floatv) (G : globals)
  : globals :=
  mkGlobals (w G) (b G) (X G) (y G) (lr G) (tolerance G) (epochs G)
            (Some g) (Some l) (new_w G) (stdout G).

(** [new_w = ...] *)
Definition set_new_w (v : ndarray) (G : globals) : globals :=
  mkGlobals (w G) (b G) (X G) (y G) (lr G) (tolerance G) (epochs G)
            (gradient G) (loss G) (Some v) (stdout G).

Definition print (l : line) (G : globals) : globals :=
  mkGlobals (w G) (b G) (X G) (y G) (lr G) (tolerance G) (epochs G)
            (gradient G) (loss G) (new_w G) (stdout G ++ [l]).

(** [epochs += 1; w = new_w] *)
Definition commit (v : ndarray) (G : globals) : globals :=
  mkGlobals v (b G) (X G) (y G) (lr G) (tolerance G) (epochs G + 1)%Z
            (gradient G) (loss G) (new_w G) (stdout G).

(** The globals when the loop is entered: parameters and data from the
    earlier cells, [lr] and [tolerance] as given, [epochs = 1], nothing
    computed or printed yet. *)
Definition initial (w b X y : ndarray) (lr tolerance : Qc) : globals :=
  mkGlobals w b X y lr tolerance 1%Z None None None [].

(** *** [net], [square_loss], [get_gradient] *)

(** [net] reads the globals [w] and [b]. *)
Definition net (G : globals) (X : ndarray) : result ndarray :=
  p <- dot (w G) (transpose X) ;;
  add p (b G).

Definition square_loss (yhat y : ndarray) : result floatv :=
  d <- sub yhat y ;;
  Ok (mean (square d)).

(** The parameter [w] is not used: [net] takes the global one. *)
Definition get_gradient (G : globals) (w x y : ndarray)
  : result (ndarray * floatv) :=
  y_estimate <- net G x ;;
  error <- sub y y_estimate ;;
  n <- len x ;;
  inv <- (if (n =? 0)%nat then Raise ZeroDivisionError
          else Ok (fl 1.0 / of_nat n)) ;;
  ex <- dot error x ;;
  gradient <- mul (A0 (- inv)) ex ;;
  loss <- square_loss y y_estimate ;;
  Ok (gradient, loss).

(** *** The gradient-descent loop *)

Inductive status : Set := RUNNING | CONVERGED.

(** One pass through the body of [while True]. *)
Definition loop_body (G : globals) : result (status * globals) :=
  '(gradient, loss) <- get_gradient G (w G) (X G) (y G) ;;
  let G := set_gradient_loss gradient loss G in
  step <- mul (A0 (lr G)) gradient ;;
  new_w <- sub (w G) step ;;
  let G := set_new_w new_w G in
  delta <- sub new_w (w G) ;;
  if Qcltb (sum (abs delta)) (tolerance G) then
    Ok (CONVERGED, print Converged G)
  else
    let G := if (epochs G mod 3 =? 0)%Z
             then print (Iteration (epochs G) loss) G else G in
    Ok (RUNNING, commit new_w G).

(** The loop, run for at most [fuel] passes; [RUNNING] in the result means
    that the loop has not been left yet. *)
Fixpoint gradient_descent (fuel : nat) (G : globals)
  : result (status * globals) :=
  match fuel with
  | O => Ok (RUNNING, G)
  | S fuel' =>
      '(st, G') <- loop_body G ;;
      match st with
      | CONVERGED => Ok (CONVERGED, G')
      | RUNNING => gradient_descent fuel' G'
      end
  end.

(** The cell of the loop: [lr = 0.01], [tolerance = 1e-3], [epochs = 1],
    then the loop. *)
Definition optimizer_cell (fuel : nat) (w b X y : ndarray)
  : result (status * globals) :=
  gradient_descent fuel (initial w b X y (fl 0.01) (fl 1e-3)).

(** The code cells in their order: data, parameters, loop. *)
Definition notebook (num_examples : nat)
           (multivariate_normal :
              nat -> list Qc -> list (list Qc) -> nat -> ndarray)
           (normal : nat -> Qc -> Qc -> nat -> ndarray) (fuel : nat)
  : result (status * globals) :=
  '(X, y) <- generate num_examples multivariate_normal normal ;;
  let '(w, b) := init_params num_examples multivariate_normal normal in
  optimizer_cell fuel w b X y.

End Notebook.

Import Notebook.

(* ------------------------------------------------------------------ *)
(** ** Definitions used to state the properties *)

(** Pairwise combination of two lists. *)
Fixpoint map2 {A B C : Type} (f : A -> B -> C) (l1 : list A) (l2 : list B)
  : list C :=
  match l1, l2 with
  | a :: l1', b :: l2' => f a b :: map2 f l1' l2'
  | _, _ => []
  end.

(** The mean of a list of numbers, in the words of the specification; no
    number is the mean of no numbers. *)
Definition spec_mean (l : list Qc) : floatv :=
  match length l with
  | O => NaN
  | S _ => Num (lsum l / of_nat (length l))
  end.

(** The squared element-wise differences, entry by entry. *)
Definition spec_squared_differences (yhat y : list Qc) : list Qc :=
  map (fun i => (nth i yhat 0 - nth i y 0) ^ 2) (seq O (length yhat)).

(** The data model of the specification: a weight vector, a scalar bias, a
    feature matrix with one row per sample and one column per weight, and
    one target per sample. *)
Definition data_model (G : globals) (wv : list Qc) (bs : Qc)
           (rows : list (list Qc)) (yv : list Qc) : Prop :=
  w G = A1 wv /\ b G = A0 bs
  /\ X G = A2 (length wv) rows
  /\ Forall (fun r => length r = length wv) rows
  /\ y G = A1 yv /\ length yv = length rows.

(** Predictions, error, gradient and candidate weights on the data model,
    entry by entry. *)
Definition spec_predictions (wv : list Qc) (bs : Qc) (rows : list (list Qc))
  : list Qc :=
  map (fun r => dotv wv r + bs) rows.

Definition spec_error (yv predictions : list Qc) : list Qc :=
  map2 Qcminus yv predictions.

Definition spec_gradient (error : list Qc) (d : nat) (rows : list (list Qc))
  : list Qc :=
  map (fun k => - (fl 1 / of_nat (length rows)) * dotv error (column k rows))
      (seq O d).

Definition spec_candidate (wv : list Qc) (lr : Qc) (g : list Qc) : list Qc :=
  map2 (fun wk gk => wk - lr * gk) wv g.

(** The parameters [real_fn] generates the targets from. *)
Definition true_weights : list Qc := [fl 2; fl (-3.4)].
Definition true_bias : Qc := fl 4.2.

(** The feature matrix after [X /= np.max(X)]. *)
Definition rescaled (m : Qc) (rows : list (list Qc)) : list (list Qc) :=
  map (map (fun x => x / m)) rows.

(** *** Concrete inputs *)

(** The example of the specification: features [[1,0],[0,1]], weights
    [2,-3.4] and bias 0 predict the targets [2,-3.4] exactly. *)
Definition exact_example : globals :=
  initial (A1 [fl 2; fl (-3.4)]) (A0 0) (A2 2 [[1; 0]; [0; 1]])
          (A1 [fl 2; fl (-3.4)]) (fl 0.01) (fl 1e-3).

(** The same data entered with the weights [1, 1]. *)
Definition vector_example : globals :=
  initial (A1 [fl 1; fl 1]) (A0 0) (A2 2 [[1; 0]; [0; 1]])
          (A1 [fl 2; fl (-3.4)]) (fl 0.01) (fl 1e-3).

(** Well-shaped data without a sample, entered with learning rate 0. *)
Definition no_sample_example : globals :=
  initial (A1 true_weights) (A0 true_bias) (A2 2 []) (A1 []) 0 (fl 1e-3).

(** A random source that hands out the one sample [1, 2] whenever it is
    asked for samples, and zeros whenever it is asked for noise. *)
Definition one_draw_multivariate_normal
           (_ : nat) (_ : list Qc) (_ : list (list Qc)) (_ : nat) : ndarray :=
  A2 2 [[fl 1; fl 2]].

Definition zero_normal (_ : nat) (_ _ : Qc) (n : nat) : ndarray :=
  A1 (repeat 0 n).

(** What the notebook has when it enters the loop with that random source
    and one example: the sample [0.5, 1] with target 1.8, one weight row
    [1, 2] and one bias entry 0. *)
Definition one_sample_example : globals :=
  initial (A2 2 [[fl 1; fl 2]]) (A1 [0]) (A2 2 [[fl 0.5; fl 1]])
          (A1 [fl 1.8]) (fl 0.01) (fl 1e-3).

(* ------------------------------------------------------------------ *)
(** ** Definitions for the properties of the rest of the notebook *)

(** What a line of output is about: [Some e] for the loss printed at
    iteration [e], [None] for "Converged.". *)
Definition line_epoch (l : line) : option Z :=
  match l with
  | Converged => None
  | Iteration e _ => Some e
  end.

(** The iterations among [e0], [e0 + 1], ..., [e0 + n - 1] at which the loop
    prints the loss. *)
Definition printed_epochs (e0 : Z) (n : nat) : list Z :=
  filter (fun e => (e mod 3 =? 0)%Z)
         (map (fun i => (e0 + Z.of_nat i)%Z) (seq O n)).

(** The shapes the notebook really has when it enters the loop: the
    parameter cell draws one weight row per example and one bias entry per
    example, so [w] is a matrix with [d] columns, [b] a vector with one
    entry per sample, [X] a matrix with [d] columns and [y] a vector with
    one target per sample. *)
Definition notebook_model (G : globals) (d : nat) (wrows : list (list Qc))
           (bv : list Qc) (rows : list (list Qc)) (yv : list Qc) : Prop :=
  w G = A2 d wrows /\ Forall (fun r => length r = d) wrows
  /\ b G = A1 bv /\ length bv = length rows
  /\ X G = A2 d rows /\ Forall (fun r => length r = d) rows
  /\ y G = A1 yv /\ length yv = length rows.

(** Predictions on these shapes: one row per weight row, one column per
    sample, the bias entry of the sample added. *)
Definition spec_predictions_rows (wrows : list (list Qc)) (bv : list Qc)
           (rows : list (list Qc)) : list (list Qc) :=
  map (fun wr => map2 Qcplus (map (dotv wr) rows) bv) wrows.

(** The gradient on these shapes: each weight row gets the gradient of its
    own row of predictions. *)
Definition spec_gradient_rows (yv : list Qc) (predictions : list (list Qc))
           (d : nat) (rows : list (list Qc)) : list (list Qc) :=
  map (fun p => spec_gradient (spec_error yv p) d rows) predictions.

Definition spec_candidate_rows (wrows : list (list Qc)) (lr : Qc)
           (g : list (list Qc)) : list (list Qc) :=
  map2 (fun wr gr => spec_candidate wr lr gr) wrows g.

(** Two examples, two weight rows, the bias entries 0 and 1. *)
Definition two_rows_example : globals :=
  initial (A2 2 [[fl 1; fl 2]; [0; fl 1]]) (A1 [0; fl 1])
          (A2 2 [[fl 0.5; fl 1]; [fl 1; 0]]) (A1 [fl 1.8; fl 6.2])
          (fl 0.01) (fl 1e-3).

(** A random source that hands out nothing: what [np.random] returns when
    it is asked for zero examples. *)
Definition no_draw_multivariate_normal
           (_ : nat) (_ : list Qc) (_ : list (list Qc)) (_ : nat) : ndarray :=
  A2 2 [].

(** A random source for two examples: the samples [1, 2] and [4, -2] for
    the features, the weight rows [1, 2] and [0, 1], noise and bias draws
    that count up from the number of the draw. *)
Definition two_draws_multivariate_normal
           (k : nat) (_ : list Qc) (_ : list (list Qc)) (_ : nat) : ndarray :=
  match k with
  | O => A2 2 [[fl 1; fl 2]; [fl 4; fl (-2)]]
  | _ => A2 2 [[fl 1; fl 2]; [fl 0; fl 1]]
  end.

Definition two_draws_normal (k : nat) (_ _ : Qc) (_ : nat) : ndarray :=
  A1 [of_nat k; of_nat (S k)].

(** *** The cells that print the first example *)

(** [a[i]] *)
Definition getitem (a : ndarray) (i : nat) : result ndarray :=
  match a with
  | A0 _ => Raise IndexError
  | A1 v => if (i <? length v)%nat then Ok (A0 (nth i v 0)) else Raise IndexError
  | A2 _ m => if (i <? length m)%nat then Ok (A1 (nth i m [])) else Raise IndexError
  end.

(** [a[i, j]] *)
Definition getitem2 (a : ndarray) (i j : nat) : result Qc :=
  match a with
  | A2 c m =>
      if ((i <? length m) && (j <? c))%nat%bool
      then Ok (nth j (nth i m []) 0)
      else Raise IndexError
  | _ => Raise IndexError
  end.

(** [print(X[0]); print(y[0])]: the two values printed. *)
Definition print_first_example (X y : ndarray) : result (ndarray * ndarray) :=
  x0 <- getitem X 0 ;;
  y0 <- getitem y 0 ;;
  Ok (x0, y0).

(** [print(2 * X[0, 0] - 3.4 * X[0, 1] + 4.2)]: the value printed. *)
Definition print_known_combination (X : ndarray) : result Qc :=
  x00 <- getitem2 X 0 0 ;;
  x01 <- getitem2 X 0 1 ;;
  Ok (fl 2 * x00 - fl 3.4 * x01 + fl 4.2).

(** A state one pass away from convergence: one sample, the weights almost
    on the target. *)
Definition nearly_fitted_example : globals :=
  initial (A1 [fl 1; fl 1]) (A0 0) (A2 2 [[1; 0]]) (A1 [fl 1.01])
          (fl 0.01) (fl 1e-3).


(* ------------------------------------------------------------------ *)
(** ** The cells in binary64 arithmetic

    The definitions above compute with exact rationals.  The properties
    that turn on what float64 does at the ends of its range -- a square
    that underflows to 0, a product that overflows to [inf], [inf - inf]
    and [0 * inf] that are [nan] -- are stated on a second embedding of the
    same cells, with every array entry an IEEE 754 binary64 number (Rocq's
    primitive floats, specified by [FloatAxioms]).

    The shapes are those of the data model: a weight vector, a scalar bias,
    a matrix of features and a vector of targets.  Element-wise operators
    on two vectors broadcast as numpy does, and the shape errors are the
    [ValueError]s numpy raises at these ranks.

    Order of additions.  [sum] adds from left to right, starting from 0;
    numpy adds in blocks, and the BLAS behind [dot] in an order of its own.
    The order changes the last bits of a sum only; the theorems on this
    embedding use nothing of a sum but what holds in every order (a sum of
    zeros is a zero, a sum of numbers that are not negative is not
    negative). *)

(** The class of a binary64 number, read off its IEEE decomposition. *)
Definition SFfinite (x : SpecFloat.spec_float) : Prop :=
  match x with
  | SpecFloat.S754_zero _ | SpecFloat.S754_finite _ _ _ => True
  | _ => False
  end.

Definition SFzero (x : SpecFloat.spec_float) : Prop :=
  match x with
  | SpecFloat.S754_zero _ => True
  | _ => False
  end.


Definition SFpositive (x : SpecFloat.spec_float) : Prop :=
  match x with
  | SpecFloat.S754_finite false _ _ => True
  | _ => False
  end.


Module F64.

Import PrimFloat.
Local Open Scope float_scope.

(** [float(n)] for the length [n] of an array, as [1.0/len(x)] and the
    division of [np.mean] convert it.  Lengths are below 2^63 on the
    platform, which is the range of [of_uint63]. *)
Definition of_len (n : nat) : float := of_uint63 (Uint63.of_Z (Z.of_nat n)).

(** A rank-2 array of shape [(length rows, cols)]. *)
Record matrix : Set := mkMatrix {
  cols : nat;
  rows : list (list float)
}.

(** *** Element-wise operators *)

(** A binary operator on two vectors, with numpy's broadcasting. *)
Definition bvec (f : float -> float -> float) (u v : list float)
  : result (list float) :=
  bcast2 (fun x t => Ok (f x t)) u v.

Definition sub : list float -> list float -> result (list float) :=
  bvec PrimFloat.sub.

(** [s * a] and [a + s] for a Python float [s] *)
Definition scale (s : float) (a : list float) : list float :=
  map (fun x => s * x) a.

Definition add_scalar (a : list float) (s : float) : list float :=
  map (fun x => x + s) a.

(** [a ** 2] and [abs(a)] *)
Definition square (a : list float) : list float := map (fun x => x * x) a.
Definition abs (a : list float) : list float := map PrimFloat.abs a.

(** *** Reductions *)

Definition sum (a : list float) : float := fold_left PrimFloat.add a 0.

(** [np.mean]: the sum divided by the number of entries; on no entry this
    is [0.0 / 0 = nan], as numpy returns. *)
Definition mean (a : list float) : float := sum a / of_len (length a).

(** *** [transpose] and [dot] *)

Definition column (k : nat) (m : list (list float)) : list float :=
  map (fun r => nth k r 0) m.

Definition columns (c : nat) (m : list (list float)) : list (list float) :=
  map (fun k => column k m) (seq O c).

Definition transpose (M : matrix) : matrix :=
  mkMatrix (length (rows M)) (columns (cols M) (rows M)).

Definition dotv (u v : list float) : float := sum (map2 PrimFloat.mul u v).

(** [u.dot(M)] for a vector [u] and a matrix [M] *)
Definition dot (u : list float) (M : matrix) : result (list float) :=
  if (length u =? length (rows M))%nat
  then Ok (map (dotv u) (columns (cols M) (rows M)))
  else Raise ValueError.

(** *** The global variables *)

Inductive line : Set :=
| Converged
| Iteration (epochs : Z) (loss : float).

Record globals : Set := mkGlobals {
  w : list float;
  b : float;
  X : matrix;
  y : list float;
  lr : float;
  tolerance : float;
  epochs : Z;
  gradient : option (list float);
  loss : option float;
  new_w : option (list float);
  stdout : list line
}.

Definition set_gradient_loss (g : list float) (l : float) (G : globals)
  : globals :=
  mkGlobals (w G) (b G) (X G) (y G) (lr G) (tolerance G) (epochs G)
            (Some g) (Some l) (new_w G) (stdout G).

Definition set_new_w (v : list float) (G : globals) : globals :=
  mkGlobals (w G) (b G) (X G) (y G) (lr G) (tolerance G) (epochs G)
            (gradient G) (loss G) (Some v) (stdout G).

Definition print (l : line) (G : globals) : globals :=
  mkGlobals (w G) (b G) (X G) (y G) (lr G) (tolerance G) (epochs G)
            (gradient G) (loss G) (new_w G) (stdout G ++ [l]).

Definition commit (v : list float) (G : globals) : globals :=
  mkGlobals v (b G) (X G) (y G) (lr G) (tolerance G) (epochs G + 1)%Z
            (gradient G) (loss G) (new_w G) (stdout G).

Definition initial (w : list float) (b : float) (X : matrix) (y : list float)
           (lr tolerance : float) : globals :=
  mkGlobals w b X y lr tolerance 1%Z None None None [].

(** *** [net], [square_loss], [get_gradient] *)

Definition net (G : globals) (X : matrix) : result (list float) :=
  p <- dot (w G) (transpose X) ;;
  Ok (add_scalar p (b G)).

Definition square_loss (yhat y : list float) : result float :=
  d <- sub yhat y ;;
  Ok (mean (square d)).

(** The parameter [w] is not used: [net] takes the global one. *)
Definition get_gradient (G : globals) (w : list float) (x : matrix)
           (y : list float) : result (list float * float) :=
  y_estimate <- net G x ;;
  error <- sub y y_estimate ;;
  inv <- (if (length (rows x) =? 0)%nat then Raise ZeroDivisionError
          else Ok (1 / of_len (length (rows x)))) ;;
  ex <- dot error x ;;
  let gradient := scale (- inv) ex in
  loss <- square_loss y y_estimate ;;
  Ok (gradient, loss).

(** *** The gradient-descent loop *)

(** The body of [while True] from [new_w = w - lr * gradient] on, for the
    gradient and the loss that [get_gradient] has returned. *)
Definition update (G : globals) (gradient : list float) (loss : float)
  : result (status * globals) :=
  let G := set_gradient_loss gradient loss G in
  new_w <- sub (w G) (scale (lr G) gradient) ;;
  let G := set_new_w new_w G in
  delta <- sub new_w (w G) ;;
  if sum (abs delta) <? tolerance G then
    Ok (CONVERGED, print Converged G)
  else
    let G := if (epochs G mod 3 =? 0)%Z
             then print (Iteration (epochs G) loss) G else G in
    Ok (RUNNING, commit new_w G).

(** One pass through the body of [while True]. *)
Definition loop_body (G : globals) : result (status * globals) :=
  '(gradient, loss) <- get_gradient G (w G) (X G) (y G) ;;
  update G gradient loss.

Fixpoint gradient_descent (fuel : nat) (G : globals)
  : result (status * globals) :=
  match fuel with
  | O => Ok (RUNNING, G)
  | S fuel' =>
      '(st, G') <- loop_body G ;;
      match st with
      | CONVERGED => Ok (CONVERGED, G')
      | RUNNING => gradient_descent fuel' G'
      end
  end.

(** *** Concrete inputs

    A decimal literal denotes the nearest binary64 number, as it does in
    Python. *)

Local Set Warnings "-inexact-float".

(** The example of the specification: features [[1,0],[0,1]], weights
    [2,-3.4] and bias 0 predict the targets [2,-3.4] exactly. *)
Definition exact_example : globals :=
  initial [2; -3.4] 0 (mkMatrix 2 [[1; 0]; [0; 1]]) [2; -3.4] 0.01 1e-3.



(** Well-shaped data without a sample, entered with learning rate 0. *)
Definition no_sample_example : globals :=
  initial [2; -3.4] 4.2 (mkMatrix 2 []) [] 0 1e-3.

End F64.
(* ------------------------------------------------------------------ *)
(** ** Tactics *)

(** Closed equations between computed results: the entries are canonical
    rationals, equal as soon as their fractions are. *)
Ltac qc_eq :=
  vm_compute;
  repeat (reflexivity || (apply Qc_is_canon; reflexivity) || f_equal).

(* ------------------------------------------------------------------ *)
(** ** Lists *)

Section ListFacts.

Context {A B C : Type}.

Lemma map2_length (f : A -> B -> C) l1 l2 :
  length l1 = length l2 -> length (map2 f l1 l2) = length l1.
Proof.
  revert l2; induction l1 as [|a l1 IH]; intros [|b l2] H; simpl in *;
    try discriminate; auto.
Qed.

Lemma map2_repeat_r (f : A -> B -> C) l b :
  map2 f l (repeat b (length l)) = map (fun a => f a b) l.
Proof. induction l as [|a l IH]; simpl; [reflexivity | now rewrite IH]. Qed.

Lemma map2_repeat_l (f : A -> B -> C) a l :
  map2 f (repeat a (length l)) l = map (f a) l.
Proof. induction l as [|b l IH]; simpl; [reflexivity | now rewrite IH]. Qed.

Lemma zipWithM_pure (f : A -> B -> C) l1 l2 :
  zipWithM (fun x y => Ok (f x y)) l1 l2 = Ok (map2 f l1 l2).
Proof.
  revert l2; induction l1 as [|a l1 IH]; intros [|b l2]; simpl; auto.
  now rewrite IH.
Qed.

End ListFacts.

Lemma map_nth_seq {A : Type} (l : list A) (d : A) :
  map (fun i => nth i l d) (seq O (length l)) = l.
Proof.
  apply nth_ext with (d := d) (d' := d).
  - now rewrite length_map, length_seq.
  - intros i Hi. rewrite length_map, length_seq in Hi.
    rewrite (nth_indep _ d (nth O l d)) by now rewrite length_map, length_seq.
    rewrite (map_nth (fun i => nth i l d)), seq_nth by assumption.
    reflexivity.
Qed.

(* ------------------------------------------------------------------ *)
(** ** Broadcasting on the shapes the notebook meets *)

Section Broadcast.

Variable f : Qc -> Qc -> Qc.

Lemma bvec_same u v :
  length u = length v -> bvec f u v = Ok (map2 f u v).
Proof.
  intros H. unfold bvec, bcast2.
  rewrite H, Nat.eqb_refl. apply zipWithM_pure.
Qed.

Lemma bvec_scalar_r u t : bvec f u [t] = Ok (map (fun a => f a t) u).
Proof.
  unfold bvec, bcast2.
  destruct (Nat.eqb_spec (length u) (length [t])) as [E|E].
  - destruct u as [|a [|? ?]]; simpl in E; try discriminate. reflexivity.
  - rewrite zipWithM_pure.
    destruct u as [|a [|a' u]]; simpl in E; try congruence;
      simpl; now rewrite ?map2_repeat_r.
Qed.

Lemma bvec_scalar_l x v : bvec f [x] v = Ok (map (f x) v).
Proof.
  unfold bvec, bcast2.
  destruct (Nat.eqb_spec (length [x]) (length v)) as [E|E].
  - destruct v as [|b [|? ?]]; simpl in E; try discriminate. reflexivity.
  - now rewrite zipWithM_pure, map2_repeat_l.
Qed.

Lemma bvec_mismatch u v :
  length u <> length v -> length u <> 1%nat -> length v <> 1%nat ->
  bvec f u v = Raise ValueError.
Proof.
  intros E Hu Hv. unfold bvec, bcast2.
  destruct (Nat.eqb_spec (length u) (length v)); [contradiction|].
  destruct u as [|a [|a' u]], v as [|c [|c' v]]; simpl in *;
    try congruence; reflexivity.
Qed.

Lemma bdim_same n : bdim n n = Ok n.
Proof. unfold bdim. now rewrite Nat.eqb_refl. Qed.

Lemma bdim_1_r n : bdim n 1 = Ok n.
Proof.
  unfold bdim. destruct (Nat.eqb_spec n 1); [now subst | reflexivity].
Qed.

Lemma bdim_1_l n : bdim 1 n = Ok n.
Proof.
  unfold bdim. destruct (Nat.eqb_spec 1 n); [now subst | reflexivity].
Qed.

Lemma bop_A0_A0 x t : bop f (A0 x) (A0 t) = Ok (A0 (f x t)).
Proof. reflexivity. Qed.

Lemma bop_A1_A1 u v :
  length u = length v -> bop f (A1 u) (A1 v) = Ok (A1 (map2 f u v)).
Proof.
  intros H. unfold bop; simpl. rewrite H, bdim_same; simpl.
  unfold bcast2; simpl. now rewrite bvec_same.
Qed.

Lemma bop_A1_A0 u t :
  bop f (A1 u) (A0 t) = Ok (A1 (map (fun a => f a t) u)).
Proof.
  unfold bop; simpl. rewrite bdim_1_r; simpl.
  unfold bcast2; simpl. now rewrite bvec_scalar_r.
Qed.

Lemma bop_A0_A1 x v : bop f (A0 x) (A1 v) = Ok (A1 (map (f x) v)).
Proof.
  unfold bop; simpl. rewrite bdim_1_l; simpl.
  unfold bcast2; simpl. now rewrite bvec_scalar_l.
Qed.

Lemma bop_A1_singleton_r u t :
  bop f (A1 u) (A1 [t]) = Ok (A1 (map (fun a => f a t) u)).
Proof.
  unfold bop; simpl. rewrite bdim_1_r; simpl.
  unfold bcast2; simpl. now rewrite bvec_scalar_r.
Qed.

Lemma bop_A1_singleton_l x v :
  bop f (A1 [x]) (A1 v) = Ok (A1 (map (f x) v)).
Proof.
  unfold bop; simpl. rewrite bdim_1_l; simpl.
  unfold bcast2; simpl. now rewrite bvec_scalar_l.
Qed.

Lemma bop_A1_A1_mismatch u v :
  length u <> length v -> length u <> 1%nat -> length v <> 1%nat ->
  bop f (A1 u) (A1 v) = Raise ValueError.
Proof.
  intros E Hu Hv. unfold bop, bdim; simpl.
  destruct (Nat.eqb_spec (length u) (length v)); [contradiction|].
  destruct (Nat.eqb_spec (length u) 1); [contradiction|].
  destruct (Nat.eqb_spec (length v) 1); [contradiction|].
  reflexivity.
Qed.

End Broadcast.

(* ------------------------------------------------------------------ *)
(** ** Arithmetic of the entries *)

Section QcFacts.

Lemma this_inv (x : Qc) : (this (/ x) == / this x)%Q.
Proof. apply Qred_correct. Qed.

Lemma Qcltb_lt x t : Qcltb x t = true <-> x < t.
Proof.
  unfold Qcltb. rewrite Qclt_alt.
  destruct (x ?= t); split; congruence.
Qed.

Lemma Qcminus_diag (x : Qc) : x - x = 0.
Proof. ring. Qed.

Lemma lsum_all_zero l : Forall (fun x => x = 0) l -> lsum l = 0.
Proof.
  induction 1 as [|x l Hx _ IH]; simpl; [reflexivity|].
  rewrite Hx, IH. ring.
Qed.

End QcFacts.

(* ------------------------------------------------------------------ *)
(** ** The loss evaluator *)

Lemma map2_by_index {A B C : Type} (f : A -> B -> C) l1 l2 da db :
  length l1 = length l2 ->
  map2 f l1 l2 = map (fun i => f (nth i l1 da) (nth i l2 db)) (seq O (length l1)).
Proof.
  revert l2; induction l1 as [|a l1 IH]; intros [|c l2] H; simpl in *;
    try discriminate; [reflexivity|].
  f_equal. rewrite <- seq_shift, map_map. apply IH. lia.
Qed.

Lemma mean_A1 v : mean (A1 v) = spec_mean v.
Proof.
  unfold mean, flatten, spec_mean; simpl. rewrite app_nil_r.
  destruct v; reflexivity.
Qed.

Lemma square_loss_same_length yhat y :
  length yhat = length y ->
  square_loss (A1 yhat) (A1 y)
  = Ok (spec_mean (map (fun d => d ^ 2) (map2 Qcminus yhat y))).
Proof.
  intros H. unfold square_loss, sub. rewrite bop_A1_A1 by assumption.
  simpl. now rewrite mean_A1.
Qed.

(** C7.  On predictions and targets of equal length the loss evaluator
    returns the mean of the squared element-wise differences. *)
Theorem square_loss_is_mean_squared_difference (yhat y : list Qc) :
  length yhat = length y ->
  square_loss (A1 yhat) (A1 y)
  = Ok (spec_mean (spec_squared_differences yhat y)).
Proof.
  intros H. rewrite square_loss_same_length by assumption.
  unfold spec_squared_differences.
  rewrite (map2_by_index Qcminus yhat y 0 0 H), map_map. reflexivity.
Qed.

Lemma square_loss_is_mean_squared_difference_witness :
  square_loss (A1 [fl 1; fl 3]) (A1 [fl 2; fl 5])
  = Ok (spec_mean (spec_squared_differences [fl 1; fl 3] [fl 2; fl 5])).
Proof.
  apply (square_loss_is_mean_squared_difference [fl 1; fl 3] [fl 2; fl 5]).
  reflexivity.
Defined.

Lemma square_loss_stretch_l a y :
  square_loss (A1 [a]) (A1 y) = Ok (spec_mean (map (fun t => (a - t) ^ 2) y)).
Proof.
  unfold square_loss, sub. rewrite bop_A1_singleton_l. simpl.
  now rewrite mean_A1, map_map.
Qed.

Lemma square_loss_stretch_r yhat t :
  square_loss (A1 yhat) (A1 [t])
  = Ok (spec_mean (map (fun a => (a - t) ^ 2) yhat)).
Proof.
  unfold square_loss, sub. rewrite bop_A1_singleton_r. simpl.
  now rewrite mean_A1, map_map.
Qed.

(** C3, as the code has it.  Predictions and targets of different lengths
    are rejected with a [ValueError] when neither has length one; a vector
    of length one is broadcast against the other and a loss is returned. *)
Theorem square_loss_length_mismatch (yhat y : list Qc) :
  length yhat <> length y ->
  (length yhat <> 1%nat -> length y <> 1%nat ->
   square_loss (A1 yhat) (A1 y) = Raise ValueError)
  /\ (forall a, yhat = [a] ->
      square_loss (A1 yhat) (A1 y)
      = Ok (spec_mean (map (fun t => (a - t) ^ 2) y)))
  /\ (forall t, y = [t] ->
      square_loss (A1 yhat) (A1 y)
      = Ok (spec_mean (map (fun a => (a - t) ^ 2) yhat))).
Proof.
  intros H. repeat split.
  - intros H1 H2. unfold square_loss, sub.
    now rewrite bop_A1_A1_mismatch.
  - intros a ->. apply square_loss_stretch_l.
  - intros t ->. apply square_loss_stretch_r.
Qed.

Lemma square_loss_length_mismatch_witness :
  square_loss (A1 [fl 1; fl 2; fl 3]) (A1 [fl 1; fl 2]) = Raise ValueError.
Proof.
  apply (square_loss_length_mismatch [fl 1; fl 2; fl 3] [fl 1; fl 2]);
    simpl; lia.
Defined.

(** C3 fails as stated: one prediction against two targets is not an error,
    the loss of the stretched prediction comes back. *)
Lemma square_loss_length_one_is_broadcast :
  length [fl 1] <> length [fl 1; fl 2]
  /\ square_loss (A1 [fl 1]) (A1 [fl 1; fl 2]) = Ok (Num (fl 0.5))
  /\ square_loss (A1 [fl 1]) (A1 [fl 1; fl 2]) <> Raise ValueError.
Proof.
  split; [simpl; lia|].
  assert (E : square_loss (A1 [fl 1]) (A1 [fl 1; fl 2]) = Ok (Num (fl 0.5)))
    by qc_eq.
  split; [exact E | rewrite E; discriminate].
Qed.

Lemma differences_diag u :
  Forall (fun x => x = 0) (map (fun d => d ^ 2) (map2 Qcminus u u)).
Proof.
  induction u as [|a u IH]; simpl; constructor; [|assumption].
  rewrite Qcminus_diag. reflexivity.
Qed.

(** The example of the specification: the predictions are the targets and
    the loss on them is 0. *)
Lemma exact_example_predictions :
  net exact_example (X exact_example) = Ok (y exact_example).
Proof. qc_eq. Qed.

Lemma exact_example_loss :
  square_loss (A1 [fl 2; fl (-3.4)]) (A1 [fl 2; fl (-3.4)]) = Ok (Num 0).
Proof. qc_eq. Qed.

(* ------------------------------------------------------------------ *)
(** ** The predictor *)

Lemma columns_length c m : length (columns c m) = c.
Proof. unfold columns. now rewrite length_map, length_seq. Qed.

Lemma column_length k m : length (column k m) = length m.
Proof. unfold column. now rewrite length_map. Qed.

Lemma column_of_columns d rows k :
  (k < length rows)%nat ->
  Forall (fun r => length r = d) rows ->
  column k (columns d rows) = nth k rows [].
Proof.
  intros Hk Hwf. unfold columns, column at 1. rewrite map_map.
  assert (Hd : length (nth k rows []) = d).
  { rewrite Forall_forall in Hwf. apply Hwf, nth_In, Hk. }
  rewrite <- (map_nth_seq (nth k rows []) 0) at 1. rewrite Hd.
  apply map_ext. intros j. unfold column.
  rewrite (nth_indep _ 0 (nth j [] 0)) by (now rewrite length_map).
  apply (map_nth (fun r => nth j r 0)).
Qed.

(** Transposing twice gives the rows back. *)
Lemma columns_involutive d rows :
  Forall (fun r => length r = d) rows ->
  columns (length rows) (columns d rows) = rows.
Proof.
  intros Hwf. unfold columns at 1.
  transitivity (map (fun k => nth k rows []) (seq O (length rows)));
    [|apply map_nth_seq].
  apply map_ext_in. intros k Hk. apply in_seq in Hk.
  apply column_of_columns; [lia | assumption].
Qed.

Lemma dot_vector_transpose wv rows :
  Forall (fun r => length r = length wv) rows ->
  dot (A1 wv) (transpose (A2 (length wv) rows)) = Ok (A1 (map (dotv wv) rows)).
Proof.
  intros Hwf. simpl. rewrite columns_length, Nat.eqb_refl.
  now rewrite columns_involutive.
Qed.

Lemma net_vector G wv bs rows :
  w G = A1 wv -> b G = A0 bs ->
  Forall (fun r => length r = length wv) rows ->
  net G (A2 (length wv) rows) = Ok (A1 (spec_predictions wv bs rows)).
Proof.
  intros Hw Hb Hwf.
  unfold net. rewrite Hw, Hb, dot_vector_transpose by assumption.
  cbn [Py.bind]. unfold add. rewrite bop_A1_A0.
  unfold spec_predictions. now rewrite map_map.
Qed.

(** C6.  For a weight vector, a scalar bias and a feature matrix with as
    many columns as there are weights, the predictor returns one prediction
    per sample: the dot product of the weights with the sample, plus the
    bias. *)
Theorem net_predicts_each_sample (G : globals) (wv : list Qc) (bs : Qc)
        (rows : list (list Qc)) :
  w G = A1 wv -> b G = A0 bs ->
  Forall (fun r => length r = length wv) rows ->
  net G (A2 (length wv) rows) = Ok (A1 (spec_predictions wv bs rows))
  /\ length (spec_predictions wv bs rows) = length rows.
Proof.
  intros Hw Hb Hwf. split.
  - now apply net_vector.
  - unfold spec_predictions. now rewrite length_map.
Qed.

Lemma net_predicts_each_sample_witness :
  net exact_example (A2 (length [fl 2; fl (-3.4)]) [[1; 0]; [0; 1]])
  = Ok (A1 (spec_predictions [fl 2; fl (-3.4)] 0 [[1; 0]; [0; 1]]))
  /\ length (spec_predictions [fl 2; fl (-3.4)] 0 [[1; 0]; [0; 1]])
     = length [[1; 0]; [0; 1]].
Proof.
  apply (net_predicts_each_sample exact_example [fl 2; fl (-3.4)] 0
                                  [[1; 0]; [0; 1]]).
  - reflexivity.
  - reflexivity.
  - repeat constructor.
Defined.

(* ------------------------------------------------------------------ *)
(** ** One pass of the gradient-descent loop *)

Lemma bind_Ok {A B : Type} (c : result A) (k : A -> result B) (r : B) :
  Py.bind c k = Ok r -> exists a, c = Ok a /\ k a = Ok r.
Proof. destruct c as [a|e]; simpl; intros H; [eauto | discriminate]. Qed.

Ltac inv_bind H :=
  let a := fresh "a" in
  let E := fresh "E" in
  apply bind_Ok in H; destruct H as (a & E & H).

(** What [get_gradient] has computed when it returns. *)
Lemma get_gradient_Ok G w0 x0 y0 g l :
  get_gradient G w0 x0 y0 = Ok (g, l) ->
  exists predictions error n ed,
    net G x0 = Ok predictions
    /\ sub y0 predictions = Ok error
    /\ len x0 = Ok n /\ n <> O
    /\ dot error x0 = Ok ed
    /\ mul (A0 (- (fl 1 / of_nat n))) ed = Ok g
    /\ square_loss y0 predictions = Ok l.
Proof.
  unfold get_gradient. intros H.
  inv_bind H. inv_bind H. inv_bind H. inv_bind H. inv_bind H.
  inv_bind H. inv_bind H. inversion H; subst; clear H.
  destruct (Nat.eqb_spec a1 0) as [Z|NZ]; [discriminate|].
  inversion E2; subst; clear E2.
  exists a, a0, a1, a3. repeat split; assumption.
Qed.

(** What one pass has computed when it does not raise. *)
Lemma loop_body_Ok G st G' :
  loop_body G = Ok (st, G') ->
  exists g l step candidate delta,
    get_gradient G (w G) (X G) (y G) = Ok (g, l)
    /\ mul (A0 (lr G)) g = Ok step
    /\ sub (w G) step = Ok candidate
    /\ sub candidate (w G) = Ok delta
    /\ (st, G') =
       if Qcltb (sum (abs delta)) (tolerance G)
       then (CONVERGED,
             print Converged (set_new_w candidate (set_gradient_loss g l G)))
       else (RUNNING,
             commit candidate
               (if (epochs G mod 3 =? 0)%Z
                then print (Iteration (epochs G) l)
                           (set_new_w candidate (set_gradient_loss g l G))
                else set_new_w candidate (set_gradient_loss g l G))).
Proof.
  unfold loop_body. intros H.
  inv_bind H. destruct a as [g l]. inv_bind H. inv_bind H. inv_bind H.
  cbn [w lr tolerance epochs set_new_w set_gradient_loss] in *.
  exists g, l, a, a0, a1. repeat split; try assumption.
  destruct (Qcltb (sum (abs a1)) (tolerance G));
    inversion H; reflexivity.
Qed.

(** The loop assigns [w], [epochs], [gradient], [loss] and [new_w], and
    prints; the other globals are left alone. *)
Lemma loop_body_frame G st G' :
  loop_body G = Ok (st, G') ->
  b G' = b G /\ X G' = X G /\ y G' = y G
  /\ lr G' = lr G /\ tolerance G' = tolerance G.
Proof.
  intros H. apply loop_body_Ok in H.
  destruct H as (g & l & step & candidate & delta & _ & _ & _ & _ & HG).
  destruct (Qcltb (sum (abs delta)) (tolerance G));
    inversion HG; subst; clear HG;
    try destruct (epochs G mod 3 =? 0)%Z; repeat split; reflexivity.
Qed.

(** C2.  A pass of the loop that does not raise ends CONVERGED exactly
    when the sum of the absolute differences between the candidate and the
    current weights is below the tolerance.  Then the weights and the
    iteration counter keep their values and the loop is left; otherwise the
    candidate becomes the weights, the counter goes up by one and the loop
    goes on from there. *)
Theorem loop_body_transition (G : globals) (st : status) (G' : globals) :
  loop_body G = Ok (st, G') ->
  tolerance G' = tolerance G
  /\ exists candidate delta,
      new_w G' = Some candidate
      /\ sub candidate (w G) = Ok delta
      /\ (st = CONVERGED <-> sum (abs delta) < tolerance G)
      /\ (st = CONVERGED ->
          w G' = w G /\ epochs G' = epochs G
          /\ forall fuel, gradient_descent (S fuel) G = Ok (CONVERGED, G'))
      /\ (st = RUNNING ->
          w G' = candidate /\ epochs G' = (epochs G + 1)%Z
          /\ forall fuel,
              gradient_descent (S fuel) G = gradient_descent fuel G').
Proof.
  intros H. pose proof H as H0.
  split; [now apply loop_body_frame in H|].
  apply loop_body_Ok in H.
  destruct H as (g & l & step & candidate & delta & Hg & Hs & Hc & Hd & HG).
  exists candidate, delta.
  rewrite <- Qcltb_lt.
  destruct (Qcltb (sum (abs delta)) (tolerance G));
    inversion HG; subst; clear HG.
  - split; [reflexivity|]. split; [assumption|].
    split; [split; reflexivity|]. split.
    + intros _. split; [reflexivity|]. split; [reflexivity|].
      intros fuel. cbn [gradient_descent]. rewrite H0. reflexivity.
    + intros D; discriminate D.
  - split; [destruct (epochs G mod 3 =? 0)%Z; reflexivity|].
    split; [assumption|].
    split; [split; intros D; discriminate D|]. split.
    + intros D; discriminate D.
    + intros _.
      split; [destruct (epochs G mod 3 =? 0)%Z; reflexivity|].
      split; [destruct (epochs G mod 3 =? 0)%Z; reflexivity|].
      intros fuel. cbn [gradient_descent]. rewrite H0. reflexivity.
Qed.

Lemma loop_body_transition_witness :
  exists st G',
    loop_body one_sample_example = Ok (st, G')
    /\ tolerance G' = tolerance one_sample_example
    /\ exists candidate delta,
        new_w G' = Some candidate
        /\ sub candidate (w one_sample_example) = Ok delta
        /\ (st = CONVERGED <-> sum (abs delta) < tolerance one_sample_example)
        /\ (st = CONVERGED ->
            w G' = w one_sample_example
            /\ epochs G' = epochs one_sample_example
            /\ forall fuel,
                gradient_descent (S fuel) one_sample_example
                = Ok (CONVERGED, G'))
        /\ (st = RUNNING ->
            w G' = candidate
            /\ epochs G' = (epochs one_sample_example + 1)%Z
            /\ forall fuel,
                gradient_descent (S fuel) one_sample_example
                = gradient_descent fuel G').
Proof.
  destruct (loop_body one_sample_example) as [[st G']|e] eqn:E.
  - exists st, G'. split; [reflexivity|].
    exact (loop_body_transition one_sample_example st G' E).
  - vm_compute in E. discriminate E.
Defined.

Lemma gradient_descent_frame fuel : forall G st G',
  gradient_descent fuel G = Ok (st, G') ->
  b G' = b G /\ X G' = X G /\ y G' = y G
  /\ lr G' = lr G /\ tolerance G' = tolerance G.
Proof.
  induction fuel as [|fuel IH]; intros G st G' H.
  - inversion H; subst. repeat split; reflexivity.
  - cbn [gradient_descent] in H. inv_bind H. destruct a as [st1 G1].
    pose proof (loop_body_frame _ _ _ E) as (Hb & HX & Hy & Hl & Ht).
    destruct st1.
    + apply IH in H. destruct H as (Hb' & HX' & Hy' & Hl' & Ht').
      repeat split; congruence.
    + inversion H; subst. repeat split; assumption.
Qed.

(** C4, what the code does.  However long the loop runs, the bias it ends
    with is the bias it started with: no pass assigns [b]. *)
Theorem bias_never_updated (fuel : nat) (G : globals) (st : status)
        (G' : globals) :
  gradient_descent fuel G = Ok (st, G') -> b G' = b G.
Proof. intros H. now apply gradient_descent_frame in H. Qed.

Lemma bias_never_updated_witness :
  exists st G',
    gradient_descent 3 one_sample_example = Ok (st, G')
    /\ b G' = b one_sample_example.
Proof.
  destruct (gradient_descent 3 one_sample_example) as [[st G']|e] eqn:E.
  - exists st, G'. split; [reflexivity|].
    exact (bias_never_updated 3 one_sample_example st G' E).
  - vm_compute in E. discriminate E.
Defined.

(** On that input the weights do move while the bias stays. *)
Lemma one_sample_example_three_passes :
  exists G',
    gradient_descent 3 one_sample_example = Ok (RUNNING, G')
    /\ w G' = A2 2 [[fl 0.989630703125; fl 1.97926140625]]
    /\ b G' = A1 [0]
    /\ epochs G' = 4%Z.
Proof.
  eexists. split; [vm_compute; reflexivity|].
  repeat split; qc_eq.
Qed.

(** With the random source of the example the notebook enters the loop on
    [one_sample_example]. *)
Lemma notebook_one_sample fuel :
  notebook 1 one_draw_multivariate_normal zero_normal fuel
  = gradient_descent fuel one_sample_example.
Proof.
  unfold notebook.
  assert (E : generate 1 one_draw_multivariate_normal zero_normal
              = Ok (A2 2 [[fl 0.5; fl 1]], A1 [fl 1.8])) by qc_eq.
  rewrite E. reflexivity.
Qed.

(** Whatever the random source, the bias the notebook ends with is the
    array of [num_examples] draws it was given at first. *)
Lemma notebook_bias_is_initial_draw ne mvn normal fuel st G' :
  notebook ne mvn normal fuel = Ok (st, G') ->
  b G' = normal 3%nat 0 1 ne.
Proof.
  unfold notebook, optimizer_cell, init_params. intros H.
  inv_bind H. destruct a as [X0 y0].
  apply gradient_descent_frame in H. now destruct H as (-> & _).
Qed.

(* ------------------------------------------------------------------ *)
(** ** The loop on the data model of the specification *)

Lemma map2_map_r {A B B' C : Type} (f : A -> B -> C) (h : B' -> B) l1 l2 :
  map2 f l1 (map h l2) = map2 (fun a c => f a (h c)) l1 l2.
Proof.
  revert l2; induction l1 as [|a l1 IH]; intros [|c l2]; simpl; auto.
  now rewrite IH.
Qed.

Lemma spec_gradient_length error d rows :
  length (spec_gradient error d rows) = d.
Proof. unfold spec_gradient. now rewrite length_map, length_seq. Qed.

Lemma sum_A1 v : sum (A1 v) = lsum v.
Proof. unfold sum, flatten; simpl. now rewrite app_nil_r. Qed.

Lemma get_gradient_vector G wv bs rows yv w0 :
  data_model G wv bs rows yv -> rows <> [] ->
  let predictions := spec_predictions wv bs rows in
  get_gradient G w0 (X G) (y G)
  = Ok (A1 (spec_gradient (spec_error yv predictions) (length wv) rows),
        spec_mean (map (fun d => d ^ 2) (map2 Qcminus yv predictions))).
Proof.
  intros (Hw & Hb & HX & Hwf & Hy & Hlen) Hne predictions.
  assert (Hp : length yv = length predictions).
  { unfold predictions, spec_predictions. now rewrite length_map. }
  unfold get_gradient. rewrite HX, Hy, (net_vector G wv bs rows Hw Hb Hwf).
  cbn [Py.bind]. fold predictions.
  unfold sub at 1. rewrite bop_A1_A1 by assumption. cbn [Py.bind len].
  destruct (Nat.eqb_spec (length rows) 0) as [Z|NZ].
  { destruct rows; [congruence | discriminate]. }
  cbn [Py.bind dot].
  rewrite map2_length, Hlen, Nat.eqb_refl by assumption. cbn [Py.bind].
  unfold mul. rewrite bop_A0_A1. cbn [Py.bind].
  rewrite square_loss_same_length by assumption. cbn [Py.bind].
  unfold spec_gradient, spec_error, columns. now rewrite !map_map.
Qed.

(** One pass on the data model, with the candidate written entry by
    entry. *)
Lemma loop_body_vector G wv bs rows yv :
  data_model G wv bs rows yv -> rows <> [] ->
  let g :=
    spec_gradient (spec_error yv (spec_predictions wv bs rows))
                  (length wv) rows in
  let candidate := spec_candidate wv (lr G) g in
  exists l,
    let G1 := set_new_w (A1 candidate) (set_gradient_loss (A1 g) l G) in
    loop_body G
    = Ok (if Qcltb (lsum (map Qcabs.Qcabs (map2 Qcminus candidate wv)))
                   (tolerance G)
          then (CONVERGED, print Converged G1)
          else (RUNNING,
                commit (A1 candidate)
                  (if (epochs G mod 3 =? 0)%Z
                   then print (Iteration (epochs G) l) G1 else G1))).
Proof.
  intros HD Hne g candidate.
  pose proof (get_gradient_vector G wv bs rows yv (w G) HD Hne) as Hg.
  cbv zeta in Hg. fold g in Hg.
  destruct HD as (Hw & Hb & HX & Hwf & Hy & Hlen).
  eexists. cbv zeta. unfold loop_body. rewrite Hg. cbn [Py.bind].
  cbn [lr w tolerance epochs set_gradient_loss set_new_w].
  unfold mul. rewrite bop_A0_A1. cbn [Py.bind].
  rewrite Hw. unfold sub.
  rewrite bop_A1_A1
    by (rewrite length_map; unfold g; now rewrite spec_gradient_length).
  cbn [Py.bind]. rewrite map2_map_r. fold (spec_candidate wv (lr G) g).
  fold candidate.
  rewrite bop_A1_A1.
  2:{ unfold candidate, spec_candidate. rewrite map2_length; [reflexivity|].
      unfold g. now rewrite spec_gradient_length. }
  cbn [Py.bind]. unfold abs. cbn [map_arr]. rewrite sum_A1.
  destruct (Qcltb _ (tolerance G)); reflexivity.
Qed.

(** C1.  A pass of the loop that does not raise has computed the
    predictions with [net], the error as targets minus predictions, the
    gradient as [-(1/n)] times the dot product of the error with the
    features, [n] being the number of samples, and the candidate weights as
    the weights minus the learning rate times the gradient.  On the data
    model with at least one sample the pass does not raise, and the
    gradient and the candidate are these expressions entry by entry. *)
Theorem loop_body_computes_step (G : globals) :
  (forall st G',
      loop_body G = Ok (st, G') ->
      exists predictions error n ed g step candidate,
        net G (X G) = Ok predictions
        /\ sub (y G) predictions = Ok error
        /\ len (X G) = Ok n /\ n <> O
        /\ dot error (X G) = Ok ed
        /\ mul (A0 (- (fl 1 / of_nat n))) ed = Ok g
        /\ gradient G' = Some g
        /\ mul (A0 (lr G)) g = Ok step
        /\ sub (w G) step = Ok candidate
        /\ new_w G' = Some candidate)
  /\ (forall wv bs rows yv,
      data_model G wv bs rows yv -> rows <> [] ->
      let g :=
        spec_gradient (spec_error yv (spec_predictions wv bs rows))
                      (length wv) rows in
      exists st G',
        loop_body G = Ok (st, G')
        /\ gradient G' = Some (A1 g)
        /\ new_w G' = Some (A1 (spec_candidate wv (lr G) g))).
Proof.
  split.
  - intros st G' H. apply loop_body_Ok in H.
    destruct H as (g & l & step & candidate & delta & Hg & Hs & Hc & Hd & HG).
    apply get_gradient_Ok in Hg.
    destruct Hg as (p & e & n & ed & Hp & He & Hn & Hn0 & Hed & Hmul & _).
    exists p, e, n, ed, g, step, candidate.
    repeat split; try assumption;
      destruct (Qcltb (sum (abs delta)) (tolerance G));
      inversion HG; subst; clear HG;
      destruct (epochs G mod 3 =? 0)%Z; reflexivity.
  - intros wv bs rows yv HD Hne g.
    destruct (loop_body_vector G wv bs rows yv HD Hne) as (l & Hl).
    cbv zeta in Hl. fold g in Hl. rewrite Hl.
    destruct (Qcltb _ (tolerance G)).
    + do 2 eexists. split; [reflexivity|]. split; reflexivity.
    + do 2 eexists. split; [reflexivity|].
      destruct (epochs G mod 3 =? 0)%Z; split; reflexivity.
Qed.

Lemma loop_body_computes_step_witness :
  let g :=
    spec_gradient
      (spec_error [fl 2; fl (-3.4)]
                  (spec_predictions [fl 1; fl 1] 0 [[1; 0]; [0; 1]]))
      2 [[1; 0]; [0; 1]] in
  exists st G',
    loop_body vector_example = Ok (st, G')
    /\ gradient G' = Some (A1 g)
    /\ new_w G' = Some (A1 (spec_candidate [fl 1; fl 1] (fl 0.01) g)).
Proof.
  apply (proj2 (loop_body_computes_step vector_example)
               [fl 1; fl 1] 0 [[1; 0]; [0; 1]] [fl 2; fl (-3.4)]).
  - unfold data_model. repeat split; repeat constructor.
  - discriminate.
Defined.

(** On [vector_example] the first pass finds the gradient [-0.5, 2.2] and
    the candidate [1.005, 0.978], and goes on. *)
Lemma vector_example_first_pass :
  exists G',
    loop_body vector_example = Ok (RUNNING, G')
    /\ gradient G' = Some (A1 [fl (-0.5); fl 2.2])
    /\ new_w G' = Some (A1 [fl 1.005; fl 0.978])
    /\ w G' = A1 [fl 1.005; fl 0.978].
Proof.
  eexists. split; [vm_compute; reflexivity|].
  repeat split; qc_eq.
Qed.

Lemma dotv_zero_l e c : Forall (fun x => x = 0) e -> dotv e c = 0.
Proof.
  intros H; revert c; induction H as [|x e Hx _ IH]; intros [|t c]; simpl;
    try reflexivity.
  rewrite Hx, IH. ring.
Qed.

Lemma map2_minus_diag u : Forall (fun x => x = 0) (map2 Qcminus u u).
Proof.
  induction u as [|a u IH]; simpl; constructor; [apply Qcminus_diag | exact IH].
Qed.

Lemma abs_all_zero l :
  Forall (fun x => x = 0) l -> Forall (fun x => x = 0) (map Qcabs.Qcabs l).
Proof.
  induction 1 as [|x l Hx _ IH]; simpl; constructor; [|exact IH].
  rewrite Hx. apply Qc_is_canon. reflexivity.
Qed.

Lemma candidate_fixed wv s g :
  length g = length wv ->
  (s = 0 \/ Forall (fun x => x = 0) g) ->
  spec_candidate wv s g = wv.
Proof.
  unfold spec_candidate.
  revert g; induction wv as [|a wv IH]; intros [|t g] Hlen Hz; simpl in *;
    try discriminate; [reflexivity|].
  f_equal.
  - destruct Hz as [->|Hz]; [ring|]. inversion Hz; subst. ring.
  - apply IH; [lia|]. destruct Hz as [Hz|Hz]; [now left | right].
    now inversion Hz.
Qed.

(** When the candidate is the current weight vector, the weight change sums
    to zero, and the pass converges as soon as the tolerance is positive. *)
Lemma loop_body_vector_fixed G wv bs rows yv :
  data_model G wv bs rows yv -> rows <> [] ->
  let g :=
    spec_gradient (spec_error yv (spec_predictions wv bs rows))
                  (length wv) rows in
  spec_candidate wv (lr G) g = wv ->
  exists l,
    let G1 := set_new_w (A1 wv) (set_gradient_loss (A1 g) l G) in
    loop_body G
    = Ok (if Qcltb 0 (tolerance G)
          then (CONVERGED, print Converged G1)
          else (RUNNING,
                commit (A1 wv)
                  (if (epochs G mod 3 =? 0)%Z
                   then print (Iteration (epochs G) l) G1 else G1))).
Proof.
  intros HD Hne g Hfix.
  destruct (loop_body_vector G wv bs rows yv HD Hne) as (l & Hl).
  cbv zeta in Hl. fold g in Hl. rewrite Hfix in Hl.
  rewrite (lsum_all_zero _ (abs_all_zero _ (map2_minus_diag wv))) in Hl.
  exists l. exact Hl.
Qed.

Lemma fixed_candidate_converges G wv bs rows yv :
  data_model G wv bs rows yv -> rows <> [] ->
  let g :=
    spec_gradient (spec_error yv (spec_predictions wv bs rows))
                  (length wv) rows in
  spec_candidate wv (lr G) g = wv ->
  0 < tolerance G ->
  forall fuel, exists G',
    gradient_descent (S fuel) G = Ok (CONVERGED, G')
    /\ w G' = w G /\ epochs G' = epochs G /\ gradient G' = Some (A1 g).
Proof.
  intros HD Hne g Hfix Htol fuel.
  destruct (loop_body_vector_fixed G wv bs rows yv HD Hne Hfix) as (l & Hl).
  cbv zeta in Hl. cbn [gradient_descent]. rewrite Hl.
  apply Qcltb_lt in Htol. rewrite Htol. cbn [Py.bind].
  eexists. split; [reflexivity|]. repeat split; reflexivity.
Qed.

(* ------------------------------------------------------------------ *)
(** ** The synthetic data *)

Lemma map2_columns (f g h : Qc -> Qc) (op : Qc -> Qc -> Qc) i j rows :
  map2 op (map g (column i rows)) (map h (column j rows))
  = map (fun r => op (g (nth i r 0)) (h (nth j r 0))) rows.
Proof. induction rows as [|r rows IH]; simpl; [reflexivity | now rewrite IH]. Qed.

(** On a matrix with two columns [real_fn] is the linear function of the
    true weights and bias. *)
Lemma real_fn_two_columns rows :
  Forall (fun r => length r = 2%nat) rows ->
  real_fn (A2 2 rows) = Ok (A1 (spec_predictions true_weights true_bias rows)).
Proof.
  intros Hwf. unfold real_fn, mul, sub, add. cbn [col Nat.ltb Nat.leb Py.bind].
  rewrite !bop_A0_A1. cbn [Py.bind].
  rewrite bop_A1_A1 by (now rewrite !length_map, !column_length).
  cbn [Py.bind]. rewrite bop_A1_A0.
  rewrite (map2_columns (fun x => x)), map_map.
  unfold spec_predictions. do 2 f_equal.
  apply map_ext_in. intros r Hr.
  rewrite Forall_forall in Hwf. specialize (Hwf r Hr).
  destruct r as [|a [|c [|? ?]]]; try discriminate. cbn [nth dotv true_weights].
  unfold true_bias.
  assert (E : fl (-3.4) = - fl 3.4) by (apply Qc_is_canon; reflexivity).
  rewrite E. ring.
Qed.

Lemma rescaled_wf m d rows :
  Forall (fun r => length r = d) rows ->
  Forall (fun r => length r = d) (rescaled m rows).
Proof.
  unfold rescaled. intros H. apply Forall_map.
  eapply Forall_impl; [|exact H]. cbv beta. intros r Hr.
  now rewrite length_map.
Qed.

Lemma Qcmax_ub x t : x <= Qcmax x t /\ t <= Qcmax x t.
Proof.
  unfold Qcmax. destruct (Qcltb x t) eqn:E.
  - apply Qcltb_lt in E. split; [now apply Qclt_le_weak | apply Qcle_refl].
  - split; [apply Qcle_refl|]. apply Qcnot_lt_le. intros H.
    apply Qcltb_lt in H. congruence.
Qed.

Lemma fold_Qcmax l : forall x,
  (fold_left Qcmax l x = x \/ In (fold_left Qcmax l x) l)
  /\ x <= fold_left Qcmax l x
  /\ Forall (fun t => t <= fold_left Qcmax l x) l.
Proof.
  induction l as [|a l IH]; intros x; cbn [fold_left].
  - repeat split; [now left | apply Qcle_refl | constructor].
  - destruct (IH (Qcmax x a)) as (Hin & Hle & Hall).
    destruct (Qcmax_ub x a) as (Hx & Ha). repeat split.
    + destruct Hin as [E|Hin]; [|right; now right].
      rewrite E. unfold Qcmax. destruct (Qcltb x a); [right|]; now left.
    + eapply Qcle_trans; eassumption.
    + constructor; [eapply Qcle_trans; eassumption | assumption].
Qed.

(** [np.max] returns an entry of the array that no entry exceeds. *)
Lemma max_is_largest a m :
  max a = Ok m -> In m (flatten a) /\ Forall (fun t => t <= m) (flatten a).
Proof.
  unfold max. destruct (flatten a) as [|x l]; [discriminate|].
  intros H; inversion H; subst; clear H.
  destruct (fold_Qcmax l x) as (Hin & Hle & Hall). split.
  - destruct Hin as [E|Hin]; [rewrite E; now left | now right].
  - constructor; assumption.
Qed.

Lemma max_Ok_nonempty c rows m : max (A2 c rows) = Ok m -> rows <> [].
Proof. intros H ->. discriminate H. Qed.

(** The data cell on two-column draws and one noise entry per sample. *)
Lemma generate_two_columns ne mvn normal rows nz :
  mvn O input_mean input_variance ne = A2 2 rows ->
  Forall (fun r => length r = 2%nat) rows ->
  normal 1%nat noise_mean noise_variance ne = A1 nz ->
  length nz = length rows ->
  generate ne mvn normal
  = (m <- max (A2 2 rows) ;;
     if Qc_eq_bool m 0 then Raise NonFinite
     else Ok (A2 2 (rescaled m rows),
              A1 (map2 Qcplus
                    (spec_predictions true_weights true_bias (rescaled m rows))
                    nz))).
Proof.
  intros Hd Hwf Hn Hlen. unfold generate. rewrite Hd, Hn.
  destruct (max (A2 2 rows)) as [m|e]; [|reflexivity]. cbn [Py.bind].
  unfold idiv. destruct (Qc_eq_bool m 0); [reflexivity|].
  cbn [Py.bind map_arr]. fold (rescaled m rows).
  rewrite real_fn_two_columns by now apply rescaled_wf.
  cbn [Py.bind]. unfold add. rewrite bop_A1_A1; [reflexivity|].
  unfold spec_predictions, rescaled. now rewrite !length_map.
Qed.

Lemma Qc_eq_bool_false m : m <> 0 -> Qc_eq_bool m 0 = false.
Proof.
  intros H. destruct (Qc_eq_bool m 0) eqn:E; [|reflexivity].
  apply Qc_eq_bool_correct in E. contradiction.
Qed.

Lemma dot_matrix_vector wv rows :
  dot (A2 (length wv) rows) (A1 wv) = Ok (A1 (map (fun r => dotv r wv) rows)).
Proof. cbn [dot]. now rewrite Nat.eqb_refl. Qed.

Lemma dotv_comm u v : dotv u v = dotv v u.
Proof.
  revert v; induction u as [|a u IH]; intros [|c v]; simpl; try reflexivity.
  rewrite IH. ring.
Qed.

(** C5, as the code has it.  With [m] the largest of the draws, the feature
    matrix is the matrix of draws with every entry divided by [m], and the
    targets are these features times the true weights, plus the true bias,
    plus the noise drawn for each sample. *)
Theorem generate_rescales_then_labels
        (ne : nat) (mvn : nat -> list Qc -> list (list Qc) -> nat -> ndarray)
        (normal : nat -> Qc -> Qc -> nat -> ndarray)
        (rows : list (list Qc)) (nz : list Qc) (m : Qc) :
  mvn O input_mean input_variance ne = A2 2 rows ->
  Forall (fun r => length r = 2%nat) rows ->
  normal 1%nat noise_mean noise_variance ne = A1 nz ->
  length nz = length rows ->
  max (A2 2 rows) = Ok m -> m <> 0 ->
  In m (concat rows) /\ Forall (fun t => t <= m) (concat rows)
  /\ exists features targets,
      generate ne mvn normal = Ok (features, targets)
      /\ features = A2 2 (rescaled m rows)
      /\ (p <- dot features (A1 true_weights) ;;
          q <- add p (A0 true_bias) ;;
          add q (A1 nz)) = Ok targets.
Proof.
  intros Hd Hwf Hn Hlen Hm Hm0.
  split; [exact (proj1 (max_is_largest _ _ Hm))|].
  split; [exact (proj2 (max_is_largest _ _ Hm))|].
  rewrite (generate_two_columns ne mvn normal rows nz Hd Hwf Hn Hlen), Hm.
  cbn [Py.bind]. rewrite Qc_eq_bool_false by assumption.
  do 2 eexists. split; [reflexivity|]. split; [reflexivity|].
  change 2%nat with (length true_weights). rewrite dot_matrix_vector.
  cbn [Py.bind]. unfold add. rewrite bop_A1_A0. cbn [Py.bind].
  rewrite map_map, bop_A1_A1 by (unfold rescaled; now rewrite !length_map).
  unfold spec_predictions. do 3 f_equal.
  apply map_ext. intros r. now rewrite dotv_comm.
Qed.

Lemma generate_rescales_then_labels_witness :
  In (fl 2) (concat [[fl 1; fl 2]])
  /\ Forall (fun t => t <= fl 2) (concat [[fl 1; fl 2]])
  /\ exists features targets,
      generate 1 one_draw_multivariate_normal zero_normal
      = Ok (features, targets)
      /\ features = A2 2 (rescaled (fl 2) [[fl 1; fl 2]])
      /\ (p <- dot features (A1 true_weights) ;;
          q <- add p (A0 true_bias) ;;
          add q (A1 [0])) = Ok targets.
Proof.
  apply (generate_rescales_then_labels 1 one_draw_multivariate_normal
           zero_normal [[fl 1; fl 2]] [0] (fl 2)).
  - reflexivity.
  - repeat constructor.
  - reflexivity.
  - reflexivity.
  - qc_eq.
  - discriminate.
Defined.

(** C5 fails as stated: the features handed out are not the draws, the
    draw [1, 2] comes back as [1/2, 1]. *)
Lemma generate_does_not_return_the_draws :
  exists features targets,
    generate 1 one_draw_multivariate_normal zero_normal
    = Ok (features, targets)
    /\ features = A2 2 [[fl 0.5; fl 1]]
    /\ features
       <> one_draw_multivariate_normal O input_mean input_variance 1.
Proof.
  eexists. eexists. split; [vm_compute; reflexivity|].
  split; [qc_eq|].
  intros H. inversion H.
Qed.

(* ------------------------------------------------------------------ *)
(** ** Starting from the true parameters *)

Lemma map2_plus_zeros l : map2 Qcplus l (repeat 0 (length l)) = l.
Proof.
  rewrite map2_repeat_r. rewrite <- (map_id l) at 2.
  apply map_ext. intros a. ring.
Qed.

Lemma spec_mean_zeros l :
  l <> [] -> Forall (fun x => x = 0) l -> spec_mean l = Num 0.
Proof.
  intros Hne H. unfold spec_mean. destruct l as [|a l]; [congruence|].
  cbn [length]. rewrite (lsum_all_zero _ H). f_equal. unfold Qcdiv. ring.
Qed.

(** Where the predictions are the targets the gradient vanishes. *)
Lemma exact_fit_gradient wv bs rows :
  let predictions := spec_predictions wv bs rows in
  spec_gradient (spec_error predictions predictions) (length wv) rows
  = repeat 0 (length wv).
Proof.
  intros predictions. unfold spec_gradient, spec_error.
  generalize (- (fl 1 / of_nat (length rows))) as c. intros c.
  generalize O as k. induction (length wv) as [|d IH]; intros k;
    cbn [seq map repeat]; [reflexivity|].
  rewrite IH, (dotv_zero_l _ _ (map2_minus_diag predictions)).
  f_equal. ring.
Qed.

Lemma exact_fit_step G wv bs rows :
  data_model G wv bs rows (spec_predictions wv bs rows) -> rows <> [] ->
  0 < tolerance G ->
  get_gradient G (w G) (X G) (y G) = Ok (A1 (repeat 0 (length wv)), Num 0)
  /\ forall fuel, exists G',
      gradient_descent (S fuel) G = Ok (CONVERGED, G')
      /\ w G' = w G /\ epochs G' = epochs G
      /\ gradient G' = Some (A1 (repeat 0 (length wv))).
Proof.
  intros HD Hne Htol. split.
  - rewrite (get_gradient_vector G wv bs rows _ (w G) HD Hne). cbv zeta.
    rewrite exact_fit_gradient. do 2 f_equal.
    apply spec_mean_zeros; [|apply differences_diag].
    destruct rows as [|r rows]; [congruence | discriminate].
  - intros fuel.
    destruct (fixed_candidate_converges G wv bs rows _ HD Hne)
      with (fuel := fuel) as (G' & HG' & Hw' & He' & Hg'); try assumption.
    + apply candidate_fixed; [apply spec_gradient_length|].
      right. rewrite exact_fit_gradient.
      clear. induction (length wv); simpl; constructor; auto.
    + rewrite exact_fit_gradient in Hg'.
      exists G'. repeat split; assumption.
Qed.

(** C9.  On data generated without noise, the loop started from the true
    weights and bias predicts the targets exactly, computes a zero gradient
    and a zero loss, and converges in its first pass, for any learning rate
    and any positive tolerance. *)
Theorem true_parameters_converge_at_once
        (ne : nat) (mvn : nat -> list Qc -> list (list Qc) -> nat -> ndarray)
        (normal : nat -> Qc -> Qc -> nat -> ndarray)
        (rows : list (list Qc)) (features targets : ndarray) (lr0 tol : Qc) :
  mvn O input_mean input_variance ne = A2 2 rows ->
  Forall (fun r => length r = 2%nat) rows ->
  normal 1%nat noise_mean noise_variance ne = A1 (repeat 0 (length rows)) ->
  generate ne mvn normal = Ok (features, targets) ->
  0 < tol ->
  let G := initial (A1 true_weights) (A0 true_bias) features targets lr0 tol in
  net G features = Ok targets
  /\ get_gradient G (w G) (X G) (y G) = Ok (A1 [0; 0], Num 0)
  /\ forall fuel, exists G',
      gradient_descent (S fuel) G = Ok (CONVERGED, G')
      /\ w G' = A1 true_weights /\ epochs G' = 1%Z
      /\ gradient G' = Some (A1 [0; 0]).
Proof.
  intros Hd Hwf Hn Hgen Htol G.
  rewrite (generate_two_columns ne mvn normal rows _ Hd Hwf Hn) in Hgen
    by now rewrite repeat_length.
  destruct (max (A2 2 rows)) as [m|e] eqn:Hm; [|discriminate Hgen].
  cbn [Py.bind] in Hgen.
  destruct (Qc_eq_bool m 0); [discriminate Hgen|].
  assert (Hne : rescaled m rows <> []).
  { apply max_Ok_nonempty in Hm. destruct rows; [congruence | discriminate]. }
  assert (Hlen : length rows
                 = length (spec_predictions true_weights true_bias
                                            (rescaled m rows))).
  { unfold spec_predictions, rescaled. now rewrite !length_map. }
  rewrite Hlen, map2_plus_zeros in Hgen.
  inversion Hgen; subst features targets; clear Hgen.
  assert (HD : data_model G true_weights true_bias (rescaled m rows)
                 (spec_predictions true_weights true_bias (rescaled m rows))).
  { unfold data_model, G. cbn [w b X y initial].
    repeat split; try reflexivity.
    - now apply rescaled_wf.
    - unfold spec_predictions. now rewrite length_map. }
  split.
  - apply (net_vector G true_weights true_bias); try reflexivity.
    now apply rescaled_wf.
  - exact (exact_fit_step G true_weights true_bias (rescaled m rows)
                          HD Hne Htol).
Qed.

Lemma true_parameters_converge_at_once_witness :
  let G := initial (A1 true_weights) (A0 true_bias)
                   (A2 2 [[fl 0.5; fl 1]]) (A1 [fl 1.8]) (fl 0.01) (fl 1e-3) in
  net G (A2 2 [[fl 0.5; fl 1]]) = Ok (A1 [fl 1.8])
  /\ get_gradient G (w G) (X G) (y G) = Ok (A1 [0; 0], Num 0)
  /\ forall fuel, exists G',
      gradient_descent (S fuel) G = Ok (CONVERGED, G')
      /\ w G' = A1 true_weights /\ epochs G' = 1%Z
      /\ gradient G' = Some (A1 [0; 0]).
Proof.
  apply (true_parameters_converge_at_once 1 one_draw_multivariate_normal
           zero_normal [[fl 1; fl 2]] (A2 2 [[fl 0.5; fl 1]]) (A1 [fl 1.8])
           (fl 0.01) (fl 1e-3)).
  - reflexivity.
  - repeat constructor.
  - reflexivity.
  - qc_eq.
  - reflexivity.
Defined.

(* ------------------------------------------------------------------ *)
(** ** The loop never touches the data and the hyperparameters *)

(** X1.  However long the loop runs, the features, the targets, the
    learning rate and the tolerance it ends with are the ones it started
    with. *)
Theorem loop_keeps_data_and_hyperparameters (fuel : nat) (G : globals)
        (st : status) (G' : globals) :
  gradient_descent fuel G = Ok (st, G') ->
  X G' = X G /\ y G' = y G /\ lr G' = lr G /\ tolerance G' = tolerance G.
Proof.
  intros H. apply gradient_descent_frame in H.
  destruct H as (_ & HX & Hy & Hl & Ht). repeat split; assumption.
Qed.

Lemma loop_keeps_data_and_hyperparameters_witness :
  exists st G',
    gradient_descent 3 one_sample_example = Ok (st, G')
    /\ X G' = X one_sample_example /\ y G' = y one_sample_example
    /\ lr G' = lr one_sample_example
    /\ tolerance G' = tolerance one_sample_example.
Proof.
  destruct (gradient_descent 3 one_sample_example) as [[st G']|e] eqn:E.
  - exists st, G'. split; [reflexivity|].
    exact (loop_keeps_data_and_hyperparameters 3 one_sample_example st G' E).
  - vm_compute in E. discriminate E.
Defined.

(* ------------------------------------------------------------------ *)
(** ** The iteration counter and the output *)

Lemma printed_epochs_S e0 n :
  printed_epochs e0 (S n)
  = (if (e0 mod 3 =? 0)%Z then [e0] else []) ++ printed_epochs (e0 + 1) n.
Proof.
  unfold printed_epochs. cbn [seq map filter].
  rewrite Z.add_0_r, <- seq_shift, map_map.
  assert (E : map (fun i => (e0 + Z.of_nat (S i))%Z) (seq O n)
              = map (fun i => (e0 + 1 + Z.of_nat i)%Z) (seq O n)).
  { apply map_ext. intros i. lia. }
  rewrite E. destruct (e0 mod 3 =? 0)%Z; reflexivity.
Qed.

(** What one pass does to the counter and to the output. *)
Lemma loop_body_trace G st G' :
  loop_body G = Ok (st, G') ->
  match st with
  | CONVERGED =>
      epochs G' = epochs G /\ stdout G' = stdout G ++ [Converged]
  | RUNNING =>
      epochs G' = (epochs G + 1)%Z
      /\ exists out,
          stdout G' = stdout G ++ out
          /\ map line_epoch out
             = map Some (if (epochs G mod 3 =? 0)%Z then [epochs G] else [])
  end.
Proof.
  intros H. apply loop_body_Ok in H.
  destruct H as (g & l & step & candidate & delta & _ & _ & _ & _ & HG).
  destruct (Qcltb (sum (abs delta)) (tolerance G));
    inversion HG; subst; clear HG.
  - split; reflexivity.
  - destruct (epochs G mod 3 =? 0)%Z; (split; [reflexivity|]).
    + eexists. split; reflexivity.
    + exists []. split; [cbn; now rewrite app_nil_r | reflexivity].
Qed.

(** The counter and the output of a run: [n] passes have committed. *)
Lemma gradient_descent_trace fuel : forall G st G',
  gradient_descent fuel G = Ok (st, G') ->
  exists (n : nat) (out : list line),
    epochs G' = (epochs G + Z.of_nat n)%Z
    /\ match st with
       | RUNNING => n = fuel
       | CONVERGED => (n < fuel)%nat
       end
    /\ stdout G' = stdout G ++ out
    /\ map line_epoch out
       = map Some (printed_epochs (epochs G) n)
         ++ match st with
            | RUNNING => []
            | CONVERGED => [None]
            end.
Proof.
  induction fuel as [|fuel IH]; intros G st G' H.
  - inversion H; subst. exists O, []. cbn.
    rewrite Z.add_0_r, app_nil_r. repeat split; reflexivity.
  - cbn [gradient_descent] in H. inv_bind H. destruct a as [st1 G1].
    apply loop_body_trace in E. destruct st1.
    + destruct E as (He & out1 & Ho1 & Hm1).
      apply IH in H. destruct H as (n & out & Hn & Hst & Ho & Hm).
      exists (S n), (out1 ++ out). repeat split.
      * rewrite Hn, He. lia.
      * destruct st; lia.
      * rewrite Ho, Ho1. now rewrite app_assoc.
      * rewrite map_app, Hm1, Hm, He, printed_epochs_S, map_app.
        now rewrite app_assoc.
    + inversion H; subst. destruct E as (He & Ho).
      exists O, [Converged]. cbn. rewrite Z.add_0_r.
      repeat split; try assumption. lia.
Qed.

(** X2.  The iteration counter counts the passes that did not converge:
    while the loop is still running after [fuel] passes the counter has
    gone up by [fuel], and when it has converged the counter has gone up by
    fewer, one per pass before the converging one. *)
Theorem epochs_counts_the_passes (fuel : nat) (G : globals) (st : status)
        (G' : globals) :
  gradient_descent fuel G = Ok (st, G') ->
  match st with
  | RUNNING => epochs G' = (epochs G + Z.of_nat fuel)%Z
  | CONVERGED =>
      (epochs G <= epochs G' < epochs G + Z.of_nat fuel)%Z
  end.
Proof.
  intros H. apply gradient_descent_trace in H.
  destruct H as (n & out & Hn & Hst & _).
  destruct st; [now subst n | lia].
Qed.

Lemma epochs_counts_the_passes_witness :
  exists G',
    gradient_descent 3 one_sample_example = Ok (RUNNING, G')
    /\ epochs G' = (epochs one_sample_example + Z.of_nat 3)%Z.
Proof.
  destruct (gradient_descent 3 one_sample_example) as [[[|] G']|e] eqn:E.
  - exists G'. split; [reflexivity|].
    exact (epochs_counts_the_passes 3 one_sample_example RUNNING G' E).
  - vm_compute in E. discriminate E.
  - vm_compute in E. discriminate E.
Defined.



(* ------------------------------------------------------------------ *)
(** ** The loop on the data model: no exception, gradient at the stop *)

Lemma spec_candidate_length wv s g :
  length g = length wv -> length (spec_candidate wv s g) = length wv.
Proof. intros H. unfold spec_candidate. now apply map2_length. Qed.

Lemma data_model_new_weights G wv bs rows yv wv' G1 :
  data_model G wv bs rows yv -> length wv' = length wv ->
  w G1 = A1 wv' -> b G1 = b G -> X G1 = X G -> y G1 = y G ->
  data_model G1 wv' bs rows yv.
Proof.
  intros (Hw & Hb & HX & Hwf & Hy & Hlen) Hl Ew Eb EX Ey.
  unfold data_model. rewrite Ew, Eb, EX, Ey, Hl.
  repeat split; assumption.
Qed.

Lemma data_model_pass G wv bs rows yv :
  data_model G wv bs rows yv -> rows <> [] ->
  exists st G' wv',
    loop_body G = Ok (st, G')
    /\ data_model G' wv' bs rows yv /\ length wv' = length wv.
Proof.
  intros HD Hne.
  destruct (loop_body_vector G wv bs rows yv HD Hne) as (l & Hl).
  cbv zeta in Hl. rewrite Hl.
  set (g := spec_gradient (spec_error yv (spec_predictions wv bs rows))
                          (length wv) rows) in *.
  destruct (Qcltb _ (tolerance G)).
  - exists CONVERGED. eexists. exists wv. split; [reflexivity|].
    split; [|reflexivity].
    apply data_model_new_weights with (G := G) (wv := wv);
      try reflexivity; try assumption. now destruct HD.
  - exists RUNNING. eexists. exists (spec_candidate wv (lr G) g).
    split; [reflexivity|].
    assert (Hc : length (spec_candidate wv (lr G) g) = length wv).
    { apply spec_candidate_length. unfold g. apply spec_gradient_length. }
    split; [|exact Hc].
    apply data_model_new_weights with (G := G) (wv := wv);
      try assumption; destruct (epochs G mod 3 =? 0)%Z; reflexivity.
Qed.

Lemma data_model_run fuel : forall G wv bs rows yv,
  data_model G wv bs rows yv -> rows <> [] ->
  exists st G' wv',
    gradient_descent fuel G = Ok (st, G')
    /\ data_model G' wv' bs rows yv /\ length wv' = length wv.
Proof.
  induction fuel as [|fuel IH]; intros G wv bs rows yv HD Hne.
  - exists RUNNING, G, wv. split; [reflexivity|]. split; [assumption | reflexivity].
  - destruct (data_model_pass G wv bs rows yv HD Hne)
      as (st1 & G1 & wv1 & H1 & HD1 & Hl1).
    cbn [gradient_descent]. rewrite H1. cbn [Py.bind]. destruct st1.
    + destruct (IH G1 wv1 bs rows yv HD1 Hne) as (st & G' & wv' & H & HD' & Hl).
      exists st, G', wv'. split; [assumption|]. split; [assumption | congruence].
    + exists CONVERGED, G1, wv1. split; [reflexivity|]. split; assumption.
Qed.

(** X4.  On a weight vector, a scalar bias and well-shaped data with at
    least one sample the loop never raises, whatever the learning rate and
    the tolerance and however long it runs, and the weights stay a vector
    with one entry per feature. *)
Theorem loop_is_safe_on_the_data_model (fuel : nat) (G : globals)
        (wv : list Qc) (bs : Qc) (rows : list (list Qc)) (yv : list Qc) :
  data_model G wv bs rows yv -> rows <> [] ->
  exists st G' wv',
    gradient_descent fuel G = Ok (st, G')
    /\ w G' = A1 wv' /\ length wv' = length wv.
Proof.
  intros HD Hne.
  destruct (data_model_run fuel G wv bs rows yv HD Hne)
    as (st & G' & wv' & H & (Hw & _) & Hl).
  exists st, G', wv'. repeat split; assumption.
Qed.

Lemma loop_is_safe_on_the_data_model_witness :
  exists st G' wv',
    gradient_descent 5 vector_example = Ok (st, G')
    /\ w G' = A1 wv' /\ length wv' = length [fl 1; fl 1].
Proof.
  apply (loop_is_safe_on_the_data_model 5 vector_example [fl 1; fl 1] 0
           [[1; 0]; [0; 1]] [fl 2; fl (-3.4)]).
  - unfold data_model. repeat split; repeat constructor.
  - discriminate.
Defined.

(* ------------------------------------------------------------------ *)
(** ** Broadcasting with matrices *)

Section MatrixBroadcast.

Variable f : Qc -> Qc -> Qc.

Lemma zipWithM_rows c m1 : forall m2,
  Forall (fun r => length r = c) m1 -> Forall (fun r => length r = c) m2 ->
  zipWithM (bvec f) m1 m2 = Ok (map2 (map2 f) m1 m2).
Proof.
  induction m1 as [|r1 m1 IH]; intros [|r2 m2] H1 H2; cbn [zipWithM map2];
    try reflexivity.
  inversion H1; inversion H2; subst.
  rewrite bvec_same by congruence. cbn [Py.bind].
  rewrite IH by assumption. reflexivity.
Qed.

Lemma zipWithM_rows_repeat_r v m :
  Forall (fun r => length r = length v) m ->
  zipWithM (bvec f) m (repeat v (length m))
  = Ok (map (fun r => map2 f r v) m).
Proof.
  induction 1 as [|r m Hr _ IH]; cbn [zipWithM length repeat map];
    [reflexivity|].
  rewrite bvec_same by assumption. cbn [Py.bind]. now rewrite IH.
Qed.

Lemma zipWithM_rows_repeat_l v m :
  Forall (fun r => length r = length v) m ->
  zipWithM (bvec f) (repeat v (length m)) m
  = Ok (map (fun r => map2 f v r) m).
Proof.
  induction 1 as [|r m Hr _ IH]; cbn [zipWithM length repeat map];
    [reflexivity|].
  rewrite bvec_same by congruence. cbn [Py.bind]. now rewrite IH.
Qed.

Lemma zipWithM_rows_scalar x m :
  zipWithM (bvec f) (repeat [x] (length m)) m = Ok (map (map (f x)) m).
Proof.
  induction m as [|r m IH]; cbn [zipWithM length repeat map]; [reflexivity|].
  rewrite bvec_scalar_l. cbn [Py.bind]. now rewrite IH.
Qed.

(** A matrix and a vector with one entry per column: the vector is used on
    every row. *)
Lemma bop_A2_A1 v m :
  Forall (fun r => length r = length v) m ->
  bop f (A2 (length v) m) (A1 v)
  = Ok (A2 (length v) (map (fun r => map2 f r v) m)).
Proof.
  intros Hwf. unfold bop. cbn [cols elems rank Nat.max].
  rewrite bdim_same. cbn [Py.bind]. unfold bcast2.
  destruct (Nat.eqb_spec (length m) (length [v])) as [E|E].
  - destruct m as [|r [|r' m]]; try discriminate E.
    inversion Hwf; subst. cbn [zipWithM map].
    rewrite bvec_same by assumption. reflexivity.
  - destruct m as [|r [|r' m]].
    + reflexivity.
    + simpl in E. congruence.
    + rewrite zipWithM_rows_repeat_r by assumption. reflexivity.
Qed.

Lemma bop_A1_A2 v m :
  Forall (fun r => length r = length v) m ->
  bop f (A1 v) (A2 (length v) m)
  = Ok (A2 (length v) (map (fun r => map2 f v r) m)).
Proof.
  intros Hwf. unfold bop. cbn [cols elems rank Nat.max].
  rewrite bdim_same. cbn [Py.bind]. unfold bcast2.
  destruct (Nat.eqb_spec (length [v]) (length m)) as [E|E].
  - destruct m as [|r [|r' m]]; try discriminate E.
    inversion Hwf; subst. cbn [zipWithM map].
    rewrite bvec_same by congruence. reflexivity.
  - rewrite zipWithM_rows_repeat_l by assumption. reflexivity.
Qed.

(** Two matrices of one shape. *)
Lemma bop_A2_A2 c m1 m2 :
  length m1 = length m2 ->
  Forall (fun r => length r = c) m1 -> Forall (fun r => length r = c) m2 ->
  bop f (A2 c m1) (A2 c m2) = Ok (A2 c (map2 (map2 f) m1 m2)).
Proof.
  intros Hlen H1 H2. unfold bop. cbn [cols elems rank Nat.max].
  rewrite bdim_same. cbn [Py.bind]. unfold bcast2.
  rewrite Hlen, Nat.eqb_refl, (zipWithM_rows c) by assumption. reflexivity.
Qed.

(** A scalar and a matrix. *)
Lemma bop_A0_A2 x c m :
  bop f (A0 x) (A2 c m) = Ok (A2 c (map (map (f x)) m)).
Proof.
  unfold bop. cbn [cols elems rank Nat.max].
  rewrite bdim_1_l. cbn [Py.bind]. unfold bcast2.
  destruct (Nat.eqb_spec (length [[x]]) (length m)) as [E|E].
  - destruct m as [|r [|r' m]]; try discriminate E.
    cbn [zipWithM map]. rewrite bvec_scalar_l. reflexivity.
  - rewrite zipWithM_rows_scalar. reflexivity.
Qed.

End MatrixBroadcast.

(* ------------------------------------------------------------------ *)
(** ** The shapes the notebook runs on *)

Lemma predictions_rows_wf wrows bv rows :
  length bv = length rows ->
  Forall (fun p => length p = length bv) (spec_predictions_rows wrows bv rows).
Proof.
  intros Hb. unfold spec_predictions_rows. apply Forall_map, Forall_forall.
  intros wr _. rewrite map2_length; now rewrite length_map.
Qed.

Lemma net_rows G d wrows bv rows :
  w G = A2 d wrows -> b G = A1 bv -> length bv = length rows ->
  Forall (fun r => length r = d) rows ->
  net G (A2 d rows)
  = Ok (A2 (length rows) (spec_predictions_rows wrows bv rows)).
Proof.
  intros Hw Hb Hlen Hwf. unfold net. rewrite Hw, Hb.
  cbn [transpose dot]. rewrite columns_length, Nat.eqb_refl.
  rewrite columns_involutive by assumption. cbn [Py.bind].
  unfold add. rewrite <- Hlen.
  rewrite bop_A2_A1.
  - unfold spec_predictions_rows. now rewrite map_map.
  - apply Forall_map, Forall_forall. intros wr _.
    now rewrite length_map.
Qed.

(** X7.  With the parameters as the notebook draws them, a matrix of
    weight rows and one bias entry per sample, the predictor does not
    return one prediction per sample: it returns a matrix with one row per
    weight row and one column per sample, whose entry is the dot product of
    that weight row with that sample plus the bias entry of the sample. *)
Theorem net_on_drawn_parameters (G : globals) (d : nat)
        (wrows : list (list Qc)) (bv : list Qc) (rows : list (list Qc)) :
  w G = A2 d wrows -> Forall (fun r => length r = d) wrows ->
  b G = A1 bv -> length bv = length rows ->
  Forall (fun r => length r = d) rows ->
  net G (A2 d rows)
  = Ok (A2 (length rows) (spec_predictions_rows wrows bv rows))
  /\ length (spec_predictions_rows wrows bv rows) = length wrows
  /\ forall i j,
      (i < length wrows)%nat -> (j < length rows)%nat ->
      nth j (nth i (spec_predictions_rows wrows bv rows) []) 0
      = dotv (nth i wrows []) (nth j rows []) + nth j bv 0.
Proof.
  intros Hw _ Hb Hlen Hwf. split; [now apply net_rows|].
  unfold spec_predictions_rows. split; [now rewrite length_map|].
  intros i j Hi Hj.
  rewrite (nth_indep _ [] ((fun wr => map2 Qcplus (map (dotv wr) rows) bv) []))
    by now rewrite length_map.
  rewrite (map_nth (fun wr => map2 Qcplus (map (dotv wr) rows) bv)).
  rewrite (map2_by_index Qcplus _ _ 0 0) by now rewrite length_map.
  rewrite length_map.
  rewrite (nth_indep _ 0 ((fun k => nth k (map (dotv (nth i wrows [])) rows) 0
                                    + nth k bv 0) O))
    by now rewrite length_map, length_seq.
  rewrite (map_nth (fun k => nth k (map (dotv (nth i wrows [])) rows) 0
                             + nth k bv 0)).
  rewrite seq_nth by assumption. cbn [Nat.add]. f_equal.
  rewrite (nth_indep _ 0 (dotv (nth i wrows []) [])) by now rewrite length_map.
  apply (map_nth (dotv (nth i wrows []))).
Qed.

Lemma net_on_drawn_parameters_witness :
  net two_rows_example (A2 2 [[fl 0.5; fl 1]; [fl 1; fl 0]])
  = Ok (A2 (length [[fl 0.5; fl 1]; [fl 1; fl 0]])
           (spec_predictions_rows [[fl 1; fl 2]; [fl 0; fl 1]] [fl 0; fl 1]
                                  [[fl 0.5; fl 1]; [fl 1; fl 0]]))
  /\ length (spec_predictions_rows [[fl 1; fl 2]; [fl 0; fl 1]] [fl 0; fl 1]
                                  [[fl 0.5; fl 1]; [fl 1; fl 0]])
     = length [[fl 1; fl 2]; [fl 0; fl 1]]
  /\ forall i j,
      (i < length [[fl 1; fl 2]; [fl 0; fl 1]])%nat ->
      (j < length [[fl 0.5; fl 1]; [fl 1; fl 0]])%nat ->
      nth j (nth i (spec_predictions_rows [[fl 1; fl 2]; [fl 0; fl 1]] [fl 0; fl 1]
                                          [[fl 0.5; fl 1]; [fl 1; fl 0]]) []) (fl 0)
      = dotv (nth i [[fl 1; fl 2]; [fl 0; fl 1]] [])
             (nth j [[fl 0.5; fl 1]; [fl 1; fl 0]] [])
        + nth j [fl 0; fl 1] (fl 0).
Proof.
  apply (net_on_drawn_parameters two_rows_example 2
           [[fl 1; fl 2]; [fl 0; fl 1]] [fl 0; fl 1] [[fl 0.5; fl 1]; [fl 1; fl 0]]).
  - reflexivity.
  - repeat constructor.
  - reflexivity.
  - reflexivity.
  - repeat constructor.
Defined.

Lemma gradient_rows_wf yv predictions d rows :
  Forall (fun r => length r = d) (spec_gradient_rows yv predictions d rows).
Proof.
  unfold spec_gradient_rows. apply Forall_map, Forall_forall.
  intros p _. apply spec_gradient_length.
Qed.

Lemma get_gradient_rows G d wrows bv rows yv w0 :
  notebook_model G d wrows bv rows yv -> rows <> [] ->
  let predictions := spec_predictions_rows wrows bv rows in
  get_gradient G w0 (X G) (y G)
  = Ok (A2 d (spec_gradient_rows yv predictions d rows),
        mean (square (A2 (length rows)
                         (map (fun p => map2 Qcminus yv p) predictions)))).
Proof.
  intros (Hw & Hww & Hb & Hbl & HX & Hwf & Hy & Hyl) Hne predictions.
  unfold get_gradient.
  rewrite HX, Hy, (net_rows G d wrows bv rows Hw Hb Hbl Hwf).
  cbn [Py.bind]. fold predictions.
  assert (Hp : Forall (fun p => length p = length yv) predictions).
  { unfold predictions. rewrite Hyl, <- Hbl.
    now apply predictions_rows_wf. }
  unfold sub at 1. rewrite <- Hyl, bop_A1_A2 by assumption.
  cbn [Py.bind len]. rewrite Hyl.
  destruct (Nat.eqb_spec (length rows) 0) as [Z|NZ].
  { destruct rows; [congruence | discriminate]. }
  cbn [Py.bind dot]. rewrite Nat.eqb_refl. cbn [Py.bind].
  unfold mul. rewrite bop_A0_A2. cbn [Py.bind].
  unfold square_loss, sub. rewrite <- Hyl, bop_A1_A2 by assumption.
  cbn [Py.bind]. do 3 f_equal.
  unfold spec_gradient_rows, spec_error, spec_gradient, columns.
  rewrite !map_map. apply map_ext. intros p. rewrite !map_map, Hyl.
  reflexivity.
Qed.

Lemma candidate_rows_wf wrows s g d :
  Forall (fun r => length r = d) wrows -> Forall (fun r => length r = d) g ->
  Forall (fun r => length r = d) (spec_candidate_rows wrows s g).
Proof.
  unfold spec_candidate_rows. intros Hw; revert g.
  induction Hw as [|wr wrows Hr _ IH]; intros [|gr g] Hg; cbn [map2];
    constructor.
  - inversion Hg; subst. apply spec_candidate_length. congruence.
  - apply IH. now inversion Hg.
Qed.

Lemma candidate_rows_length wrows s g :
  length g = length wrows ->
  length (spec_candidate_rows wrows s g) = length wrows.
Proof.
  intros H. unfold spec_candidate_rows. now apply map2_length.
Qed.

Lemma candidate_rows_as_sub wrows s g :
  map2 (map2 Qcminus) wrows (map (map (Qcmult s)) g)
  = spec_candidate_rows wrows s g.
Proof.
  unfold spec_candidate_rows, spec_candidate.
  revert g; induction wrows as [|wr wrows IH]; intros [|gr g]; cbn [map map2];
    try reflexivity.
  now rewrite IH, map2_map_r.
Qed.

(** One pass on the shapes of the notebook. *)
Lemma loop_body_rows G d wrows bv rows yv :
  notebook_model G d wrows bv rows yv -> rows <> [] ->
  let g := spec_gradient_rows yv (spec_predictions_rows wrows bv rows)
                              d rows in
  let candidate := spec_candidate_rows wrows (lr G) g in
  exists st G',
    loop_body G = Ok (st, G')
    /\ gradient G' = Some (A2 d g)
    /\ new_w G' = Some (A2 d candidate)
    /\ (w G' = w G \/ w G' = A2 d candidate)
    /\ b G' = b G /\ X G' = X G /\ y G' = y G.
Proof.
  intros HM Hne g candidate.
  pose proof (get_gradient_rows G d wrows bv rows yv (w G) HM Hne) as Hg.
  cbv zeta in Hg. fold g in Hg.
  destruct HM as (Hw & Hww & Hb & Hbl & HX & Hwf & Hy & Hyl).
  assert (Hgl : length g = length wrows).
  { unfold g, spec_gradient_rows, spec_predictions_rows.
    now rewrite !length_map. }
  unfold loop_body. rewrite Hg. cbn [Py.bind].
  cbn [lr w tolerance epochs set_gradient_loss set_new_w].
  unfold mul. rewrite bop_A0_A2. cbn [Py.bind].
  rewrite Hw. unfold sub.
  rewrite (bop_A2_A2 Qcminus d).
  2:{ now rewrite !length_map. }
  2:{ assumption. }
  2:{ apply Forall_map. eapply Forall_impl; [|apply gradient_rows_wf].
      cbv beta. intros r Hr. rewrite length_map. exact Hr. }
  cbn [Py.bind]. rewrite candidate_rows_as_sub. fold candidate.
  rewrite (bop_A2_A2 Qcminus d).
  2:{ unfold candidate. now apply candidate_rows_length. }
  2:{ unfold candidate. apply candidate_rows_wf; [assumption|].
      apply gradient_rows_wf. }
  2:{ assumption. }
  cbn [Py.bind].
  destruct (Qcltb _ (tolerance G)).
  - do 2 eexists. split; [reflexivity|].
    repeat split; try reflexivity. left. exact Hw.
  - do 2 eexists. split; [reflexivity|].
    destruct (epochs G mod 3 =? 0)%Z; repeat split; try reflexivity;
      right; reflexivity.
Qed.

(** X8.  On the shapes of the notebook with at least one sample,
    [get_gradient] does not raise, whatever is passed for its parameter
    [w]: it works on the global weights.  The gradient has the shape of the
    weight matrix, and its row [i] is [-(1/n)] times the dot products of
    the error of prediction row [i] with the feature columns: every weight
    row is fitted on its own. *)
Theorem get_gradient_on_drawn_parameters (G : globals) (d : nat)
        (wrows : list (list Qc)) (bv : list Qc) (rows : list (list Qc))
        (yv : list Qc) (w0 : ndarray) :
  notebook_model G d wrows bv rows yv -> rows <> [] ->
  let predictions := spec_predictions_rows wrows bv rows in
  exists g l,
    get_gradient G w0 (X G) (y G) = Ok (A2 d g, l)
    /\ length g = length wrows
    /\ Forall (fun r => length r = d) g
    /\ forall i, (i < length wrows)%nat ->
         nth i g []
         = spec_gradient (spec_error yv (nth i predictions [])) d rows.
Proof.
  intros HM Hne predictions.
  rewrite (get_gradient_rows G d wrows bv rows yv w0 HM Hne).
  cbv zeta. fold predictions.
  do 2 eexists. split; [reflexivity|].
  unfold spec_gradient_rows. split.
  { unfold predictions, spec_predictions_rows. now rewrite !length_map. }
  split; [apply gradient_rows_wf|].
  intros i Hi.
  rewrite (nth_indep _ []
             ((fun p => spec_gradient (spec_error yv p) d rows) [])).
  - apply (map_nth (fun p => spec_gradient (spec_error yv p) d rows)).
  - unfold predictions, spec_predictions_rows. now rewrite !length_map.
Qed.

Lemma get_gradient_on_drawn_parameters_witness :
  let predictions :=
    spec_predictions_rows [[fl 1; fl 2]; [fl 0; fl 1]] [fl 0; fl 1]
                          [[fl 0.5; fl 1]; [fl 1; fl 0]] in
  exists g l,
    get_gradient two_rows_example (A0 (fl 7)) (X two_rows_example)
                 (y two_rows_example) = Ok (A2 2 g, l)
    /\ length g = length [[fl 1; fl 2]; [fl 0; fl 1]]
    /\ Forall (fun r => length r = 2%nat) g
    /\ forall i, (i < length [[fl 1; fl 2]; [fl 0; fl 1]])%nat ->
         nth i g []
         = spec_gradient (spec_error [fl 1.8; fl 6.2] (nth i predictions []))
                         2 [[fl 0.5; fl 1]; [fl 1; fl 0]].
Proof.
  apply (get_gradient_on_drawn_parameters two_rows_example 2
           [[fl 1; fl 2]; [fl 0; fl 1]] [fl 0; fl 1]
           [[fl 0.5; fl 1]; [fl 1; fl 0]] [fl 1.8; fl 6.2] (A0 (fl 7))).
  - unfold notebook_model. repeat split; repeat constructor.
  - discriminate.
Defined.

Lemma notebook_model_pass G d wrows bv rows yv :
  notebook_model G d wrows bv rows yv -> rows <> [] ->
  exists st G' wrows',
    loop_body G = Ok (st, G')
    /\ notebook_model G' d wrows' bv rows yv
    /\ length wrows' = length wrows.
Proof.
  intros HM Hne.
  destruct (loop_body_rows G d wrows bv rows yv HM Hne)
    as (st & G' & H & _ & _ & Hw' & Hb' & HX' & Hy').
  destruct HM as (Hw & Hww & Hb & Hbl & HX & Hwf & Hy & Hyl).
  destruct Hw' as [Hw'|Hw'].
  - exists st, G', wrows. split; [assumption|]. split; [|reflexivity].
    unfold notebook_model. rewrite Hw', Hb', HX', Hy'.
    repeat split; assumption.
  - eexists st, G', _. split; [assumption|]. split.
    + unfold notebook_model. rewrite Hw', Hb', HX', Hy'.
      split; [reflexivity|]. split.
      { apply candidate_rows_wf; [assumption | apply gradient_rows_wf]. }
      repeat split; assumption.
    + apply candidate_rows_length.
      unfold spec_gradient_rows, spec_predictions_rows.
      now rewrite !length_map.
Qed.

Lemma notebook_model_run fuel : forall G d wrows bv rows yv,
  notebook_model G d wrows bv rows yv -> rows <> [] ->
  exists st G' wrows',
    gradient_descent fuel G = Ok (st, G')
    /\ notebook_model G' d wrows' bv rows yv
    /\ length wrows' = length wrows.
Proof.
  induction fuel as [|fuel IH]; intros G d wrows bv rows yv HM Hne.
  - exists RUNNING, G, wrows. split; [reflexivity|].
    split; [assumption | reflexivity].
  - destruct (notebook_model_pass G d wrows bv rows yv HM Hne)
      as (st1 & G1 & wrows1 & H1 & HM1 & Hl1).
    cbn [gradient_descent]. rewrite H1. cbn [Py.bind]. destruct st1.
    + destruct (IH G1 d wrows1 bv rows yv HM1 Hne)
        as (st & G' & wrows' & H & HM' & Hl).
      exists st, G', wrows'. split; [assumption|].
      split; [assumption | congruence].
    + exists CONVERGED, G1, wrows1. split; [reflexivity|]. split; assumption.
Qed.

(** X9.  On the shapes of the notebook with at least one sample the loop
    never raises, whatever the learning rate and the tolerance and however
    long it runs, and the weights stay a well-formed matrix of the same
    shape. *)
Theorem loop_is_safe_on_drawn_parameters (fuel : nat) (G : globals) (d : nat)
        (wrows : list (list Qc)) (bv : list Qc) (rows : list (list Qc))
        (yv : list Qc) :
  notebook_model G d wrows bv rows yv -> rows <> [] ->
  exists st G' wrows',
    gradient_descent fuel G = Ok (st, G')
    /\ w G' = A2 d wrows'
    /\ Forall (fun r => length r = d) wrows'
    /\ length wrows' = length wrows.
Proof.
  intros HM Hne.
  destruct (notebook_model_run fuel G d wrows bv rows yv HM Hne)
    as (st & G' & wrows' & H & (Hw & Hww & _) & Hl).
  exists st, G', wrows'. repeat split; assumption.
Qed.

Lemma loop_is_safe_on_drawn_parameters_witness :
  exists st G' wrows',
    gradient_descent 4 two_rows_example = Ok (st, G')
    /\ w G' = A2 2 wrows'
    /\ Forall (fun r => length r = 2%nat) wrows'
    /\ length wrows' = length [[fl 1; fl 2]; [fl 0; fl 1]].
Proof.
  apply (loop_is_safe_on_drawn_parameters 4 two_rows_example 2
           [[fl 1; fl 2]; [fl 0; fl 1]] [fl 0; fl 1]
           [[fl 0.5; fl 1]; [fl 1; fl 0]] [fl 1.8; fl 6.2]).
  - unfold notebook_model. repeat split; repeat constructor.
  - discriminate.
Defined.

(* ------------------------------------------------------------------ *)
(** ** [real_fn] *)

(** X10.  On a matrix with at least two columns [real_fn] returns one
    value per row, [2 * r[0] - 3.4 * r[1] + 4.2]: the columns after the
    second are not read. *)
Theorem real_fn_reads_two_columns (c : nat) (rows : list (list Qc)) :
  (2 <= c)%nat ->
  real_fn (A2 c rows)
  = Ok (A1 (map (fun r => fl 2 * nth 0 r 0 - fl 3.4 * nth 1 r 0 + fl 4.2)
                rows)).
Proof.
  intros Hc. unfold real_fn, mul, sub, add. cbn [col].
  destruct (Nat.ltb_spec 0 c) as [_|F]; [|lia].
  destruct (Nat.ltb_spec 1 c) as [_|F]; [|lia].
  cbn [Py.bind]. rewrite !bop_A0_A1. cbn [Py.bind].
  rewrite bop_A1_A1 by (now rewrite !length_map, !column_length).
  cbn [Py.bind]. rewrite bop_A1_A0.
  now rewrite (map2_columns (fun x => x)), map_map.
Qed.

Lemma real_fn_reads_two_columns_witness :
  real_fn (A2 3 [[fl 1; fl 2; fl 5]; [fl 4; fl 0; fl 7]])
  = Ok (A1 (map (fun r => fl 2 * nth 0 r 0 - fl 3.4 * nth 1 r 0 + fl 4.2)
                [[fl 1; fl 2; fl 5]; [fl 4; fl 0; fl 7]])).
Proof.
  apply (real_fn_reads_two_columns 3 [[fl 1; fl 2; fl 5]; [fl 4; fl 0; fl 7]]).
  lia.
Defined.

(** X11.  [real_fn] raises [IndexError] on a scalar, on a vector and on a
    matrix with fewer than two columns. *)
Theorem real_fn_needs_two_columns (a : ndarray) :
  (rank a < 2 \/ cols a < 2)%nat -> real_fn a = Raise IndexError.
Proof.
  intros H. destruct a as [x|v|c m]; try reflexivity.
  cbn [rank cols] in H.
  assert (Hc : (c < 2)%nat) by (destruct H; [lia | assumption]).
  unfold real_fn, mul. cbn [col].
  destruct c as [|[|c]]; [reflexivity | | lia].
  cbn [Nat.ltb Nat.leb Py.bind]. rewrite bop_A0_A1. reflexivity.
Qed.

Lemma real_fn_needs_two_columns_witness :
  real_fn (A2 1 [[fl 1]; [fl 2]]) = Raise IndexError.
Proof.
  apply (real_fn_needs_two_columns (A2 1 [[fl 1]; [fl 2]])).
  right. simpl. lia.
Defined.

(* ------------------------------------------------------------------ *)
(** ** The data cell *)

(** X12.  When the random source hands out no entry (zero examples), the
    data cell raises [ValueError] at [np.max(X)], and the notebook stops
    there: the loop is never entered. *)
Theorem no_example_no_data
        (ne : nat) (mvn : nat -> list Qc -> list (list Qc) -> nat -> ndarray)
        (normal : nat -> Qc -> Qc -> nat -> ndarray) (fuel : nat) :
  flatten (mvn O input_mean input_variance ne) = [] ->
  generate ne mvn normal = Raise ValueError
  /\ notebook ne mvn normal fuel = Raise ValueError.
Proof.
  intros H.
  assert (E : generate ne mvn normal = Raise ValueError).
  { unfold generate, max. now rewrite H. }
  split; [exact E|]. unfold notebook. now rewrite E.
Qed.

Lemma no_example_no_data_witness :
  generate 0 no_draw_multivariate_normal zero_normal = Raise ValueError
  /\ notebook 0 no_draw_multivariate_normal zero_normal 10
     = Raise ValueError.
Proof.
  apply (no_example_no_data 0 no_draw_multivariate_normal zero_normal 10).
  reflexivity.
Defined.

Lemma Qcinv_nonneg (m : Qc) : 0 < m -> 0 <= / m.
Proof.
  unfold Qcle, Qclt. intros H. rewrite this_inv.
  change (this 0) with 0%Q in *. apply Qinv_le_0_compat. lra.
Qed.

Lemma Qcdiv_le_one (x m : Qc) : 0 < m -> x <= m -> x / m <= 1.
Proof.
  intros Hm Hx. unfold Qcdiv.
  rewrite <- (Qcmult_inv_r m) by (intros E; rewrite E in Hm;
                                   exact (Qcle_not_lt _ _ (Qcle_refl 0) Hm)).
  apply Qcmult_le_compat_r; [assumption | now apply Qcinv_nonneg].
Qed.

Lemma concat_rescaled m rows :
  concat (rescaled m rows) = map (fun x => x / m) (concat rows).
Proof. unfold rescaled. now rewrite concat_map. Qed.

(** X13.  After [X /= np.max(X)] with a positive largest draw, 1 is an
    entry of the feature matrix and no entry is above 1. *)
Theorem features_are_normalised
        (ne : nat) (mvn : nat -> list Qc -> list (list Qc) -> nat -> ndarray)
        (normal : nat -> Qc -> Qc -> nat -> ndarray)
        (rows : list (list Qc)) (nz : list Qc) (m : Qc) :
  mvn O input_mean input_variance ne = A2 2 rows ->
  Forall (fun r => length r = 2%nat) rows ->
  normal 1%nat noise_mean noise_variance ne = A1 nz ->
  length nz = length rows ->
  max (A2 2 rows) = Ok m -> 0 < m ->
  exists features targets,
    generate ne mvn normal = Ok (features, targets)
    /\ In 1 (flatten features)
    /\ Forall (fun t => t <= 1) (flatten features).
Proof.
  intros Hd Hwf Hn Hlen Hm Hpos.
  assert (Hm0 : m <> 0).
  { intros E; rewrite E in Hpos.
    exact (Qcle_not_lt _ _ (Qcle_refl 0) Hpos). }
  rewrite (generate_two_columns ne mvn normal rows nz Hd Hwf Hn Hlen), Hm.
  cbn [Py.bind]. rewrite Qc_eq_bool_false by assumption.
  do 2 eexists. split; [reflexivity|].
  unfold flatten. cbn [elems]. rewrite concat_rescaled.
  destruct (max_is_largest _ _ Hm) as (Hin & Hall).
  unfold flatten in Hin, Hall. cbn [elems] in Hin, Hall. split.
  - rewrite <- (Qcmult_inv_r m Hm0). fold (Qcdiv m m).
    now apply (in_map (fun x => x / m)).
  - apply Forall_map. eapply Forall_impl; [|exact Hall].
    cbv beta. intros x Hx. now apply Qcdiv_le_one.
Qed.

Lemma features_are_normalised_witness :
  exists features targets,
    generate 1 one_draw_multivariate_normal zero_normal
    = Ok (features, targets)
    /\ In 1 (flatten features)
    /\ Forall (fun t => t <= 1) (flatten features).
Proof.
  apply (features_are_normalised 1 one_draw_multivariate_normal zero_normal
           [[fl 1; fl 2]] [0] (fl 2)).
  - reflexivity.
  - repeat constructor.
  - reflexivity.
  - reflexivity.
  - qc_eq.
  - reflexivity.
Defined.

(** X14.  When the data cell succeeds on draws with two columns and one
    noise entry per draw, its outputs are aligned and not empty: the
    features are a well-formed matrix with one row per draw, there is one
    target per row, and there is at least one row. *)
Theorem generated_data_are_aligned
        (ne : nat) (mvn : nat -> list Qc -> list (list Qc) -> nat -> ndarray)
        (normal : nat -> Qc -> Qc -> nat -> ndarray)
        (rows : list (list Qc)) (nz : list Qc) (features targets : ndarray) :
  mvn O input_mean input_variance ne = A2 2 rows ->
  Forall (fun r => length r = 2%nat) rows ->
  normal 1%nat noise_mean noise_variance ne = A1 nz ->
  length nz = length rows ->
  generate ne mvn normal = Ok (features, targets) ->
  exists frows yv,
    features = A2 2 frows /\ targets = A1 yv
    /\ Forall (fun r => length r = 2%nat) frows
    /\ length frows = length rows /\ length yv = length rows
    /\ rows <> [].
Proof.
  intros Hd Hwf Hn Hlen Hgen.
  rewrite (generate_two_columns ne mvn normal rows nz Hd Hwf Hn Hlen) in Hgen.
  destruct (max (A2 2 rows)) as [m|e] eqn:Hm; [|discriminate Hgen].
  cbn [Py.bind] in Hgen.
  destruct (Qc_eq_bool m 0); [discriminate Hgen|].
  injection Hgen as HX Hy. subst features targets.
  do 2 eexists. split; [reflexivity|]. split; [reflexivity|].
  split; [now apply rescaled_wf|].
  split; [unfold rescaled; now rewrite length_map|].
  split.
  - rewrite map2_length; unfold spec_predictions, rescaled;
      now rewrite !length_map.
  - now apply max_Ok_nonempty in Hm.
Qed.

Lemma generated_data_are_aligned_witness :
  exists frows yv,
    A2 2 [[fl 0.5; fl 1]] = A2 2 frows /\ A1 [fl 1.8] = A1 yv
    /\ Forall (fun r => length r = 2%nat) frows
    /\ length frows = length [[fl 1; fl 2]]
    /\ length yv = length [[fl 1; fl 2]]
    /\ [[fl 1; fl 2]] <> [].
Proof.
  apply (generated_data_are_aligned 1 one_draw_multivariate_normal zero_normal
           [[fl 1; fl 2]] [0] (A2 2 [[fl 0.5; fl 1]]) (A1 [fl 1.8])).
  - reflexivity.
  - repeat constructor.
  - reflexivity.
  - reflexivity.
  - qc_eq.
Defined.

(* ------------------------------------------------------------------ *)
(** ** The notebook as a whole *)

(** X15.  When the random source hands out arrays of the shapes asked for
    (two columns per sample and per weight row, one noise entry and one
    bias entry per sample) and the data cell succeeds, the loop of the
    notebook never raises, however long it runs, and the weights stay a
    matrix with one row per weight row drawn and two columns. *)
Theorem notebook_loop_never_raises
        (ne : nat) (mvn : nat -> list Qc -> list (list Qc) -> nat -> ndarray)
        (normal : nat -> Qc -> Qc -> nat -> ndarray)
        (rows wrows : list (list Qc)) (nz bv : list Qc)
        (features targets : ndarray) (fuel : nat) :
  mvn O input_mean input_variance ne = A2 2 rows ->
  Forall (fun r => length r = 2%nat) rows ->
  normal 1%nat noise_mean noise_variance ne = A1 nz ->
  length nz = length rows ->
  mvn 2%nat input_mean input_variance ne = A2 2 wrows ->
  Forall (fun r => length r = 2%nat) wrows ->
  normal 3%nat 0 1 ne = A1 bv ->
  length bv = length rows ->
  generate ne mvn normal = Ok (features, targets) ->
  exists st G' wrows',
    notebook ne mvn normal fuel = Ok (st, G')
    /\ w G' = A2 2 wrows'
    /\ Forall (fun r => length r = 2%nat) wrows'
    /\ length wrows' = length wrows.
Proof.
  intros Hd Hwf Hn Hlen Hw Hww Hb Hbl Hgen.
  unfold notebook. rewrite Hgen. cbn [Py.bind].
  unfold init_params, optimizer_cell. rewrite Hw, Hb.
  rewrite (generate_two_columns ne mvn normal rows nz Hd Hwf Hn Hlen) in Hgen.
  destruct (max (A2 2 rows)) as [m|e] eqn:Hm; [|discriminate Hgen].
  cbn [Py.bind] in Hgen.
  destruct (Qc_eq_bool m 0); [discriminate Hgen|].
  injection Hgen as HX Hy. subst features targets.
  set (frows := rescaled m rows).
  set (yv := map2 Qcplus (spec_predictions true_weights true_bias frows) nz).
  assert (Hfl : length frows = length rows).
  { unfold frows, rescaled. now rewrite length_map. }
  destruct (notebook_model_run fuel
              (initial (A2 2 wrows) (A1 bv) (A2 2 frows) (A1 yv)
                       (fl 0.01) (fl 1e-3))
              2 wrows bv frows yv)
    as (st & G' & wrows' & H & (Hw' & Hww' & _) & Hl).
  - unfold notebook_model. cbn [w b X y initial].
    split; [reflexivity|]. split; [assumption|].
    split; [reflexivity|]. split; [congruence|].
    split; [reflexivity|]. split; [now apply rescaled_wf|].
    split; [reflexivity|].
    unfold yv. rewrite map2_length; unfold spec_predictions;
      rewrite length_map; congruence.
  - apply max_Ok_nonempty in Hm. unfold frows, rescaled.
    destruct rows; [congruence | discriminate].
  - exists st, G', wrows'. repeat split; assumption.
Qed.

Lemma notebook_loop_never_raises_witness :
  exists st G' wrows',
    notebook 2 two_draws_multivariate_normal two_draws_normal 5 = Ok (st, G')
    /\ w G' = A2 2 wrows'
    /\ Forall (fun r => length r = 2%nat) wrows'
    /\ length wrows' = length [[fl 1; fl 2]; [fl 0; fl 1]].
Proof.
  apply (notebook_loop_never_raises 2 two_draws_multivariate_normal
           two_draws_normal [[fl 1; fl 2]; [fl 4; fl (-2)]]
           [[fl 1; fl 2]; [fl 0; fl 1]] [of_nat 1; of_nat 2]
           [of_nat 3; of_nat 4]
           (A2 2 [[fl 0.25; fl 0.5]; [fl 1; fl (-0.5)]])
           (A1 [fl 4; fl 9.9])).
  - reflexivity.
  - repeat constructor.
  - reflexivity.
  - reflexivity.
  - reflexivity.
  - repeat constructor.
  - reflexivity.
  - reflexivity.
  - qc_eq.
Defined.

(* ------------------------------------------------------------------ *)
(** ** The predictor on mismatched shapes *)

(** X16.  When the weights are a vector or a matrix and their number of
    columns is not the number of columns of the feature matrix, the
    predictor raises [ValueError]. *)
Theorem net_rejects_mismatched_columns (G : globals) (c : nat)
        (rows : list (list Qc)) :
  rank (w G) <> O -> cols (w G) <> c ->
  net G (A2 c rows) = Raise ValueError.
Proof.
  intros Hr Hc. unfold net. destruct (w G) as [x|v|d m]; cbn [rank cols] in *.
  - congruence.
  - cbn [transpose dot]. rewrite columns_length.
    destruct (Nat.eqb_spec (length v) c); [contradiction | reflexivity].
  - cbn [transpose dot]. rewrite columns_length.
    destruct (Nat.eqb_spec d c); [contradiction | reflexivity].
Qed.

Lemma net_rejects_mismatched_columns_witness :
  net exact_example (A2 3 [[fl 1; fl 2; fl 3]]) = Raise ValueError.
Proof.
  apply (net_rejects_mismatched_columns exact_example 3 [[fl 1; fl 2; fl 3]]).
  - discriminate.
  - simpl. lia.
Defined.

(* ------------------------------------------------------------------ *)
(** ** The loss is symmetric *)

Section Swap.

Context {A B C D : Type}.
Variable f : A -> B -> result C.
Variable f' : B -> A -> result D.
Variable h : C -> D.
Hypothesis swap : forall a t, f' t a = (c <- f a t ;; Ok (h c)).

Lemma zipWithM_swap l1 : forall l2,
  zipWithM f' l2 l1 = (r <- zipWithM f l1 l2 ;; Ok (map h r)).
Proof.
  induction l1 as [|a l1 IH]; intros [|t l2]; cbn [zipWithM Py.bind map];
    try reflexivity.
  rewrite swap. destruct (f a t) as [c|e]; cbn [Py.bind]; [|reflexivity].
  rewrite IH. destruct (zipWithM f l1 l2); reflexivity.
Qed.

Lemma bcast2_swap l1 l2 :
  bcast2 f' l2 l1 = (r <- bcast2 f l1 l2 ;; Ok (map h r)).
Proof.
  unfold bcast2. rewrite (Nat.eqb_sym (length l2) (length l1)).
  destruct (Nat.eqb_spec (length l1) (length l2)) as [E|E].
  - apply zipWithM_swap.
  - destruct l1 as [|a [|a' l1]], l2 as [|t [|t' l2]];
      try reflexivity; try (simpl in E; congruence);
      apply zipWithM_swap.
Qed.

End Swap.

Lemma bdim_comm n m : bdim n m = bdim m n.
Proof.
  unfold bdim. rewrite (Nat.eqb_sym m n).
  destruct (Nat.eqb_spec n m) as [->|E]; [reflexivity|].
  destruct (Nat.eqb_spec n 1) as [->|E1], (Nat.eqb_spec m 1) as [->|E2];
    reflexivity.
Qed.

Lemma Qcopp_0 : - 0 = 0.
Proof. ring. Qed.

Lemma pack_map_opp k c m :
  pack k c (map (map Qcopp) m) = map_arr Qcopp (pack k c m).
Proof.
  destruct k as [|[|k]]; cbn [pack map_arr].
  - f_equal.
    change (@nil Qc) with (map Qcopp []) at 1.
    rewrite (map_nth (map Qcopp)).
    rewrite <- Qcopp_0 at 1. apply (map_nth Qcopp).
  - f_equal. change (@nil Qc) with (map Qcopp []) at 1.
    apply (map_nth (map Qcopp)).
  - reflexivity.
Qed.

(** Subtracting the other way round negates every entry, and fails on the
    same shapes. *)
Lemma sub_swap a t : sub t a = (r <- sub a t ;; Ok (map_arr Qcopp r)).
Proof.
  unfold sub, bop. rewrite (bdim_comm (cols t) (cols a)).
  destruct (bdim (cols a) (cols t)) as [c|e]; cbn [Py.bind]; [|reflexivity].
  rewrite (bcast2_swap (bvec Qcminus) (bvec Qcminus) (map Qcopp)).
  - destruct (bcast2 (bvec Qcminus) (elems a) (elems t)) as [m|e];
      cbn [Py.bind]; [|reflexivity].
    rewrite Nat.max_comm. now rewrite pack_map_opp.
  - intros u v. unfold bvec.
    apply (bcast2_swap (fun x z => Ok (x - z)) (fun z x => Ok (z - x)) Qcopp).
    intros x z. cbn [Py.bind]. f_equal. ring.
Qed.

Lemma square_opp r : square (map_arr Qcopp r) = square r.
Proof.
  unfold square. destruct r as [x|v|c m]; cbn [map_arr]; f_equal.
  - cbn [Qcpower]. ring.
  - rewrite map_map. apply map_ext. intros x. cbn [Qcpower]. ring.
  - rewrite map_map. apply map_ext. intros v.
    rewrite map_map. apply map_ext. intros x. cbn [Qcpower]. ring.
Qed.

(** X17.  The loss does not depend on the order of its arguments, on any
    shapes and also when it raises: [get_gradient], which calls
    [square_loss(y, y_estimate)] with the targets first, reports the loss
    of the predictions against the targets. *)
Theorem square_loss_is_symmetric (a t : ndarray) :
  square_loss t a = square_loss a t.
Proof.
  unfold square_loss. rewrite sub_swap.
  destruct (sub a t) as [r|e]; cbn [Py.bind]; [|reflexivity].
  now rewrite square_opp.
Qed.

(* ------------------------------------------------------------------ *)
(** ** The first example, as the notebook prints it *)

(** X18.  On generated data the first target printed is the combination
    [2 * X[0, 0] - 3.4 * X[0, 1] + 4.2] printed next, plus the first noise
    draw: the noise is the whole difference between the two values. *)
Theorem first_target_is_combination_plus_noise
        (ne : nat) (mvn : nat -> list Qc -> list (list Qc) -> nat -> ndarray)
        (normal : nat -> Qc -> Qc -> nat -> ndarray)
        (rows : list (list Qc)) (nz : list Qc) (features targets : ndarray) :
  mvn O input_mean input_variance ne = A2 2 rows ->
  Forall (fun r => length r = 2%nat) rows ->
  normal 1%nat noise_mean noise_variance ne = A1 nz ->
  length nz = length rows ->
  generate ne mvn normal = Ok (features, targets) ->
  exists x0 v,
    print_known_combination features = Ok v
    /\ print_first_example features targets
       = Ok (A1 x0, A0 (v + nth 0 nz 0)).
Proof.
  intros Hd Hwf Hn Hlen Hgen.
  rewrite (generate_two_columns ne mvn normal rows nz Hd Hwf Hn Hlen) in Hgen.
  destruct (max (A2 2 rows)) as [m|e] eqn:Hm; [|discriminate Hgen].
  cbn [Py.bind] in Hgen.
  destruct (Qc_eq_bool m 0); [discriminate Hgen|].
  injection Hgen as HX Hy. subst features targets.
  apply max_Ok_nonempty in Hm.
  destruct rows as [|r rows]; [congruence|].
  destruct nz as [|z nz]; [discriminate Hlen|].
  inversion Hwf as [|? ? Hr _]; subst.
  destruct r as [|a [|c [|? ?]]]; try discriminate Hr.
  do 2 eexists. split; [reflexivity|].
  unfold print_first_example. cbn. do 3 f_equal.
  assert (E : fl (-3.4) = - fl 3.4) by (apply Qc_is_canon; reflexivity).
  unfold true_bias. rewrite E. ring.
Qed.

Lemma first_target_is_combination_plus_noise_witness :
  exists x0 v,
    print_known_combination (A2 2 [[fl 0.25; fl 0.5]; [fl 1; fl (-0.5)]])
    = Ok v
    /\ print_first_example (A2 2 [[fl 0.25; fl 0.5]; [fl 1; fl (-0.5)]])
                           (A1 [fl 4; fl 9.9])
       = Ok (A1 x0, A0 (v + nth 0 [of_nat 1; of_nat 2] 0)).
Proof.
  apply (first_target_is_combination_plus_noise 2
           two_draws_multivariate_normal two_draws_normal
           [[fl 1; fl 2]; [fl 4; fl (-2)]] [of_nat 1; of_nat 2]).
  - reflexivity.
  - repeat constructor.
  - reflexivity.
  - reflexivity.
  - qc_eq.
Defined.

(* ------------------------------------------------------------------ *)
(** ** Running the loop again after it has converged *)

Lemma get_gradient_ext G1 G2 w1 w2 x0 y0 :
  w G1 = w G2 -> b G1 = b G2 ->
  get_gradient G1 w1 x0 y0 = get_gradient G2 w2 x0 y0.
Proof. intros Hw Hb. unfold get_gradient, net. now rewrite Hw, Hb. Qed.

(** The verdict of a pass depends on the weights, the bias, the data, the
    learning rate and the tolerance only. *)
Lemma loop_body_verdict G1 G2 G1' :
  w G1 = w G2 -> b G1 = b G2 -> X G1 = X G2 -> y G1 = y G2 ->
  lr G1 = lr G2 -> tolerance G1 = tolerance G2 ->
  loop_body G1 = Ok (CONVERGED, G1') ->
  exists G2',
    loop_body G2 = Ok (CONVERGED, G2')
    /\ w G2' = w G2 /\ epochs G2' = epochs G2
    /\ stdout G2' = stdout G2 ++ [Converged].
Proof.
  intros Hw Hb HX Hy Hl Ht H. unfold loop_body in *.
  rewrite (get_gradient_ext G1 G2 (w G1) (w G2)), HX, Hy in H by assumption.
  destruct (get_gradient G2 (w G2) (X G2) (y G2)) as [[g l]|e];
    [|discriminate H].
  cbn [Py.bind] in *.
  cbn [lr w tolerance epochs set_gradient_loss set_new_w] in *.
  rewrite Hl, Hw, Ht in H.
  destruct (mul (A0 (lr G2)) g) as [step|e]; [|discriminate H].
  cbn [Py.bind] in *.
  destruct (sub (w G2) step) as [candidate|e]; [|discriminate H].
  cbn [Py.bind] in *.
  destruct (sub candidate (w G2)) as [delta|e]; [|discriminate H].
  cbn [Py.bind] in *.
  destruct (Qcltb (sum (abs delta)) (tolerance G2)); [|discriminate H].
  eexists. split; [reflexivity|]. repeat split; reflexivity.
Qed.

Lemma converged_last_pass fuel : forall G G',
  gradient_descent fuel G = Ok (CONVERGED, G') ->
  exists Gk,
    loop_body Gk = Ok (CONVERGED, G')
    /\ b Gk = b G /\ X Gk = X G /\ y Gk = y G
    /\ lr Gk = lr G /\ tolerance Gk = tolerance G.
Proof.
  induction fuel as [|fuel IH]; intros G G' H; [discriminate H|].
  cbn [gradient_descent] in H. inv_bind H. destruct a as [st1 G1].
  destruct st1.
  - pose proof (loop_body_frame _ _ _ E) as (Hb & HX & Hy & Hl & Ht).
    apply IH in H. destruct H as (Gk & Hk & Hb' & HX' & Hy' & Hl' & Ht').
    exists Gk. repeat split; congruence.
  - inversion H; subst. exists G. repeat split; try reflexivity. assumption.
Qed.

(** X19.  Once the loop has converged, entering it again on the state it
    has left, with the same learning rate and tolerance and the counter
    back at 1, converges in its first pass: it prints "Converged." and
    nothing else and leaves the weights as they are. *)
Theorem rerun_after_convergence_stops_at_once (fuel : nat) (G G' : globals) :
  gradient_descent fuel G = Ok (CONVERGED, G') ->
  forall fuel', exists G'',
    gradient_descent (S fuel')
      (initial (w G') (b G') (X G') (y G') (lr G) (tolerance G))
    = Ok (CONVERGED, G'')
    /\ w G'' = w G' /\ epochs G'' = 1%Z /\ stdout G'' = [Converged].
Proof.
  intros H fuel'.
  pose proof (gradient_descent_frame _ _ _ _ H) as (Hb & HX & Hy & _ & _).
  apply converged_last_pass in H.
  destruct H as (Gk & Hk & Hbk & HXk & Hyk & Hlk & Htk).
  assert (Hw : w G' = w Gk).
  { apply loop_body_Ok in Hk.
    destruct Hk as (g & l & step & cand & delta & _ & _ & _ & _ & HG).
    destruct (Qcltb (sum (abs delta)) (tolerance Gk));
      inversion HG; reflexivity. }
  destruct (loop_body_verdict Gk
              (initial (w G') (b G') (X G') (y G') (lr G) (tolerance G)) G')
    as (G'' & H'' & Hw'' & He'' & Ho''); cbn [w b X y lr tolerance initial];
    try congruence.
  exists G''. cbn [gradient_descent]. rewrite H''. cbn [Py.bind].
  repeat split; assumption.
Qed.

Lemma rerun_after_convergence_stops_at_once_witness :
  exists G' G'',
    gradient_descent 1 nearly_fitted_example = Ok (CONVERGED, G')
    /\ gradient_descent 1
         (initial (w G') (b G') (X G') (y G') (lr nearly_fitted_example)
                  (tolerance nearly_fitted_example))
       = Ok (CONVERGED, G'')
    /\ w G'' = w G' /\ epochs G'' = 1%Z /\ stdout G'' = [Converged].
Proof.
  destruct (gradient_descent 1 nearly_fitted_example) as [[[|] G']|e] eqn:E.
  - vm_compute in E. discriminate E.
  - destruct (rerun_after_convergence_stops_at_once 1 nearly_fitted_example
                G' E O) as (G'' & H).
    exists G', G''. split; [reflexivity | exact H].
  - vm_compute in E. discriminate E.
Defined.

(* ------------------------------------------------------------------ *)
(** ** Data without a sample *)

(** X20.  On a weight vector, a scalar bias and well-shaped data without a
    sample, the predictions and the error are empty, [get_gradient]
    divides by the number of samples and raises [ZeroDivisionError], and so
    does the loop in its first pass, whatever the learning rate and the
    tolerance. *)
Theorem no_sample_raises_zero_division (G : globals) (wv : list Qc)
        (bs : Qc) (yv : list Qc) (w0 : ndarray) (fuel : nat) :
  data_model G wv bs [] yv ->
  net G (X G) = Ok (A1 [])
  /\ get_gradient G w0 (X G) (y G) = Raise ZeroDivisionError
  /\ gradient_descent (S fuel) G = Raise ZeroDivisionError.
Proof.
  intros (Hw & Hb & HX & Hwf & Hy & Hlen).
  destruct yv; [|discriminate Hlen].
  assert (Hn : net G (X G) = Ok (A1 [])).
  { rewrite HX. now rewrite (net_vector G wv bs [] Hw Hb Hwf). }
  assert (Hg : forall w1, get_gradient G w1 (X G) (y G)
                          = Raise ZeroDivisionError).
  { intros w1. unfold get_gradient. rewrite Hn. cbn [Py.bind].
    rewrite Hy, HX. reflexivity. }
  split; [assumption|]. split; [apply Hg|].
  cbn [gradient_descent]. unfold loop_body. now rewrite Hg.
Qed.

Lemma no_sample_raises_zero_division_witness :
  net no_sample_example (X no_sample_example) = Ok (A1 [])
  /\ get_gradient no_sample_example (A0 0) (X no_sample_example)
                  (y no_sample_example) = Raise ZeroDivisionError
  /\ gradient_descent 3 no_sample_example = Raise ZeroDivisionError.
Proof.
  apply (no_sample_raises_zero_division no_sample_example true_weights
           true_bias [] (A0 0) 2).
  unfold data_model. repeat split; repeat constructor.
Defined.

(* ------------------------------------------------------------------ *)
(** ** Binary64 arithmetic

    What the proofs on the binary64 embedding need of IEEE 754, derived
    from the specification of the primitive floats ([FloatAxioms] over
    [SpecFloat]). *)

Section Float64.

Import PrimFloat SpecFloat FloatOps FloatAxioms.
Local Open Scope float_scope.
Local Set Warnings "-inexact-float".

(** *** Rounding to the format

    The number of digits of a mantissa is its binary logarithm plus one. *)
Lemma digits2_size p : digits2_pos p = Pos.size p.
Proof. induction p; simpl; congruence. Qed.

Lemma digits2_log2 p : Zpos (digits2_pos p) = (Z.log2 (Zpos p) + 1)%Z.
Proof.
  rewrite digits2_size. destruct p; simpl; try rewrite Pos2Z.inj_succ; lia.
Qed.

Lemma Zdigits2_log2 z : (0 < z)%Z -> Zdigits2 z = (Z.log2 z + 1)%Z.
Proof. destruct z; try lia. intros _. apply digits2_log2. Qed.

(** One step to the right halves the mantissa, *)
Lemma shr_1_m mrs :
  (0 <= shr_m mrs)%Z -> shr_m (shr_1 mrs) = Z.shiftr (shr_m mrs) 1.
Proof.
  destruct mrs as [m r s]. cbn [shr_m]. intros H.
  rewrite Z.shiftr_div_pow2 by lia. change (2 ^ 1)%Z with 2%Z.
  destruct m as [|[p|p|]|p]; cbn [shr_1 shr_m]; try lia.
  - reflexivity.
  - rewrite Pos2Z.inj_xI. apply Z.div_unique with (r := 1%Z); lia.
  - rewrite Pos2Z.inj_xO. apply Z.div_unique with (r := 0%Z); lia.
  - reflexivity.
Qed.

(** [p] steps shift it by [p] bits, *)
Lemma iter_shr_1_m p : forall mrs, (0 <= shr_m mrs)%Z ->
  shr_m (iter_pos shr_1 p mrs) = Z.shiftr (shr_m mrs) (Zpos p).
Proof.
  induction p as [p IH|p IH|]; intros mrs H; cbn [iter_pos].
  - rewrite IH, IH, shr_1_m, !Z.shiftr_shiftr by
      (try lia; try (rewrite ?IH, ?shr_1_m, ?Z.shiftr_nonneg; try lia;
                     rewrite ?shr_1_m, ?Z.shiftr_nonneg; lia)).
    f_equal. lia.
  - rewrite IH, IH, !Z.shiftr_shiftr by
      (try lia; try (rewrite ?IH, ?Z.shiftr_nonneg; lia)).
    f_equal. lia.
  - now apply shr_1_m.
Qed.

Lemma shr_record_of_loc_m m l : shr_m (shr_record_of_loc m l) = m.
Proof. destruct l as [|[]]; reflexivity. Qed.

(** and rounding to the format shifts by what the exponent of the format
    asks for. *)
Lemma shr_fexp_m m e l :
  (0 <= m)%Z ->
  let n := Z.max 0 (fexp prec emax (Zdigits2 m + e) - e) in
  shr_m (fst (shr_fexp prec emax m e l)) = Z.shiftr m n
  /\ snd (shr_fexp prec emax m e l) = (e + n)%Z.
Proof.
  intros H n. unfold shr_fexp, shr. subst n.
  destruct (fexp prec emax (Zdigits2 m + e) - e)%Z as [|p|p] eqn:E;
    cbn [fst snd].
  - rewrite shr_record_of_loc_m. split; [reflexivity | lia].
  - rewrite iter_shr_1_m by (rewrite shr_record_of_loc_m; lia).
    rewrite shr_record_of_loc_m. split; [f_equal; lia | lia].
  - rewrite shr_record_of_loc_m. split; [reflexivity | lia].
Qed.

Lemma round_nearest_even_bounds m l :
  (m <= round_nearest_even m l <= m + 1)%Z.
Proof.
  unfold round_nearest_even. destruct l as [|[]]; try destruct (Z.even m); lia.
Qed.


Lemma shiftr_pos a n :
  (0 < a)%Z -> (0 <= n <= Z.log2 a)%Z -> (0 < Z.shiftr a n)%Z.
Proof.
  intros Ha Hn.
  assert (H0 : (0 <= Z.shiftr a n)%Z) by (apply Z.shiftr_nonneg; lia).
  destruct (Z.eq_dec (Z.shiftr a n) 0) as [E|E]; [|lia].
  apply Z.shiftr_eq_0_iff in E. lia.
Qed.


(** Rounding a positive mantissa at an exponent in range gives a finite
    number that is not zero. *)
Lemma binary_round_aux_finite sx m ex lx :
  (-1074 <= ex)%Z ->
  (Z.max ex (Z.log2 (Zpos m) + ex - 52) + 1 <= 971)%Z ->
  exists m' e',
    binary_round_aux prec emax sx (Zpos m) ex lx = S754_finite sx m' e'
    /\ (ex <= e')%Z.
Proof.
  intros He Hb. unfold binary_round_aux.
  pose proof (shr_fexp_m (Zpos m) ex lx ltac:(lia)) as [Hm1 He1].
  destruct (shr_fexp prec emax (Zpos m) ex lx) as [mrs1 e1].
  cbn [fst snd] in Hm1, He1.
  rewrite Zdigits2_log2 in Hm1, He1 by lia.
  pose proof (Z.log2_nonneg (Zpos m)) as HL.
  set (L := Z.log2 (Zpos m)) in *.
  set (n1 := Z.max 0 (fexp prec emax (L + 1 + ex) - ex)) in *.
  assert (Hn1 : n1 = Z.max 0 (L - 52)).
  { unfold n1, fexp, SpecFloat.emin, prec, emax. lia. }
  assert (Hp1 : (0 < shr_m mrs1)%Z).
  { rewrite Hm1. apply shiftr_pos; [lia|]. fold L. lia. }
  assert (Hl1 : (Z.log2 (shr_m mrs1) < 53)%Z).
  { rewrite Hm1, Z.log2_shiftr by lia. fold L. lia. }
  apply (Z.log2_lt_pow2 _ 53 Hp1) in Hl1.
  change (2 ^ 53)%Z with 9007199254740992%Z in Hl1.
  pose proof (round_nearest_even_bounds (shr_m mrs1) (loc_of_shr_record mrs1))
    as Hr.
  set (m1 := round_nearest_even (shr_m mrs1) (loc_of_shr_record mrs1)) in *.
  assert (Hl2 : (Z.log2 m1 < 54)%Z).
  { apply Z.log2_lt_pow2; [lia|].
    change (2 ^ 54)%Z with 18014398509481984%Z. lia. }
  pose proof (Z.log2_nonneg m1) as HL2.
  pose proof (shr_fexp_m m1 e1 loc_Exact ltac:(lia)) as [Hm2 He2].
  destruct (shr_fexp prec emax m1 e1 loc_Exact) as [mrs2 e2].
  cbn [fst snd] in Hm2, He2.
  rewrite Zdigits2_log2 in Hm2, He2 by lia.
  set (n2 := Z.max 0 (fexp prec emax (Z.log2 m1 + 1 + e1) - e1)) in *.
  assert (Hn2 : (0 <= n2 <= 1 /\ n2 <= Z.log2 m1)%Z).
  { unfold n2, fexp, SpecFloat.emin, prec, emax. lia. }
  assert (Hp2 : (0 < shr_m mrs2)%Z) by (rewrite Hm2; apply shiftr_pos; lia).
  destruct (shr_m mrs2) as [|q|q]; try lia.
  assert (Hle : (e2 <=? emax - prec)%Z = true).
  { apply Z.leb_le. unfold emax, prec. lia. }
  rewrite Hle. exists q, e2. split; [reflexivity | lia].
Qed.


(** Rounding a mantissa that is not negative at an exponent far from the
    top of the range gives no infinity. *)
Lemma binary_round_aux_no_overflow sx mx ex lx :
  (0 <= mx)%Z ->
  (Z.max ex (Z.log2 mx + ex - 52) <= 970)%Z ->
  SFfinite (binary_round_aux prec emax sx mx ex lx).
Proof.
  intros H Hb. unfold binary_round_aux.
  pose proof (shr_fexp_m mx ex lx H) as [Hm1 He1].
  destruct (shr_fexp prec emax mx ex lx) as [mrs1 e1].
  cbn [fst snd] in Hm1, He1.
  pose proof (Z.log2_nonneg mx) as HL.
  assert (HD : (0 <= Zdigits2 mx <= Z.log2 mx + 1)%Z
               /\ (0 < mx -> Zdigits2 mx = Z.log2 mx + 1)%Z).
  { destruct (Z.eq_dec mx 0) as [->|N]; [cbn; lia|].
    rewrite Zdigits2_log2 by lia. lia. }
  set (n1 := Z.max 0 (fexp prec emax (Zdigits2 mx + ex) - ex)) in *.
  assert (Hn1 : (0 <= n1 /\ e1 <= Z.max (Z.max ex (Z.log2 mx + ex - 52))
                                        (-1074)
                 /\ -1074 <= e1 /\ (0 < mx -> Z.log2 mx - 52 <= n1))%Z).
  { unfold n1, fexp, SpecFloat.emin, prec, emax in *. lia. }
  assert (Hm1b : (0 <= shr_m mrs1 < 9007199254740992)%Z).
  { rewrite Hm1. split; [apply Z.shiftr_nonneg; lia|].
    destruct (Z.eq_dec mx 0) as [->|N];
      [rewrite Z.shiftr_0_l; lia|].
    destruct (Z.eq_dec (Z.shiftr mx n1) 0) as [->|N1]; [lia|].
    assert (0 <= Z.shiftr mx n1)%Z by (apply Z.shiftr_nonneg; lia).
    change 9007199254740992%Z with (2 ^ 53)%Z.
    apply Z.log2_lt_pow2; [lia|].
    rewrite Z.log2_shiftr by lia. lia. }
  pose proof (round_nearest_even_bounds (shr_m mrs1) (loc_of_shr_record mrs1))
    as Hr.
  set (m1 := round_nearest_even (shr_m mrs1) (loc_of_shr_record mrs1)) in *.
  assert (HD1 : (0 <= Zdigits2 m1 <= 54)%Z).
  { destruct (Z.eq_dec m1 0) as [->|N]; [cbn; lia|].
    rewrite Zdigits2_log2 by lia.
    pose proof (Z.log2_nonneg m1).
    assert (Z.log2 m1 < 54)%Z; [|lia].
    apply Z.log2_lt_pow2; [lia|].
    change (2 ^ 54)%Z with 18014398509481984%Z. lia. }
  pose proof (shr_fexp_m m1 e1 loc_Exact ltac:(lia)) as [Hm2 He2].
  destruct (shr_fexp prec emax m1 e1 loc_Exact) as [mrs2 e2].
  cbn [fst snd] in Hm2, He2.
  assert (H2 : (0 <= shr_m mrs2)%Z)
    by (rewrite Hm2; apply Z.shiftr_nonneg; lia).
  assert (He2b : (e2 <= 971)%Z).
  { rewrite He2. unfold fexp, SpecFloat.emin, prec, emax. lia. }
  destruct (shr_m mrs2) as [|q|q]; [exact I| |lia].
  assert (Hle : (e2 <=? emax - prec)%Z = true).
  { apply Z.leb_le. unfold emax, prec. lia. }
  rewrite Hle. exact I.
Qed.

(** *** The tests of [PrimFloat] on the decomposition *)

Lemma SFcompare_refl s m e :
  SFcompare (S754_finite s m e) (S754_finite s m e) = Some Eq.
Proof.
  unfold SFcompare. rewrite Z.compare_refl, Pos.compare_cont_refl.
  destruct s; reflexivity.
Qed.

Lemma is_finite_SF x : is_finite x = true <-> SFfinite (Prim2SF x).
Proof.
  unfold is_finite, is_nan, is_infinity. rewrite !eqb_spec, abs_spec.
  change (Prim2SF infinity) with (S754_infinity false).
  destruct (Prim2SF x) as [s|s| |s m e]; cbn [SFabs SFfinite].
  - destruct s; cbn; tauto.
  - destruct s; cbn; intuition discriminate.
  - cbn; intuition discriminate.
  - unfold SFeqb at 1. rewrite SFcompare_refl. cbn; tauto.
Qed.

Lemma is_zero_SF x : is_zero x = true <-> SFzero (Prim2SF x).
Proof.
  unfold is_zero. rewrite eqb_spec.
  change (Prim2SF zero) with (S754_zero false).
  destruct (Prim2SF x) as [s|s| |s m e]; cbn [SFzero].
  - cbn; tauto.
  - destruct s; cbn; intuition discriminate.
  - cbn; intuition discriminate.
  - destruct s; cbn; intuition discriminate.
Qed.


(** Two finite numbers that compare equal are two zeros or the same
    number. *)
Lemma eqb_finite a c :
  is_finite a = true -> (a =? c) = true ->
  (SFzero (Prim2SF a) /\ SFzero (Prim2SF c)) \/ a = c.
Proof.
  rewrite is_finite_SF, eqb_spec. intros Ha H.
  destruct (Prim2SF a) as [s|s| |s m e] eqn:Ea; cbn in Ha; try tauto;
    destruct (Prim2SF c) as [s'|s'| |s' m' e'] eqn:Ec; cbn in H;
    try discriminate; try (destruct s; discriminate);
    try (destruct s'; discriminate); try (destruct s, s'; discriminate).
  - left. cbn. tauto.
  - right. apply Prim2SF_inj. rewrite Ea, Ec.
    unfold SFeqb, SFcompare in H.
    destruct s, s'; try discriminate;
      destruct (Z.compare_spec e e') as [Ee|Ee|Ee]; try discriminate;
      subst e';
      destruct (Pos.compare_cont Eq m m') eqn:Em; try discriminate;
      apply (Pos.compare_eq m m') in Em; now subst.
Qed.

(** *** Subtraction *)



Lemma SFsub_diag a : SFfinite a -> SF64sub a a = S754_zero false.
Proof.
  destruct a as [s|s| |s m e]; cbn; try tauto; intros _.
  - destruct s; reflexivity.
  - unfold SF64sub, SFsub. now rewrite Z.sub_diag.
Qed.

Lemma SFsub_zeros a c : SFzero a -> SFzero c -> SFzero (SF64sub a c).
Proof.
  destruct a as [s|s| |s m e], c as [s'|s'| |s' m' e']; cbn; try tauto.
  destruct s, s'; cbn; tauto.
Qed.

Lemma SFsub_zero_r a z :
  SFfinite a -> ~ SFzero a -> SFzero z -> SF64sub a z = a.
Proof.
  destruct a as [s|s| |s m e], z as [s'|s'| |s' m' e']; cbn; tauto.
Qed.

(** *** Multiplication *)

Lemma SFmul_zero_l a c : SFzero a -> SFfinite c -> SFzero (SF64mul a c).
Proof. destruct a, c; cbn; tauto. Qed.

Lemma SFmul_zero_r a c : SFfinite a -> SFzero c -> SFzero (SF64mul a c).
Proof. destruct a, c; cbn; tauto. Qed.


Lemma SFmul_self_zero a : SFzero a -> SF64mul a a = S754_zero false.
Proof.
  destruct a as [s|s| |s m e]; cbn; try tauto. intros _.
  now rewrite xorb_nilpotent.
Qed.

(** *** Addition *)


(** *** Division *)


Lemma SFdiv_zero a c :
  a = S754_zero false -> SFpositive c -> SF64div a c = S754_zero false.
Proof. intros ->. destruct c as [s|s| |[|] m e]; cbn; tauto. Qed.

(** [1.0 / c] is finite for a positive [c] that is not tiny. *)
Lemma SFdiv_one_finite m e :
  (-52 <= e)%Z ->
  SFfinite (SF64div (Prim2SF 1) (S754_finite false m e)).
Proof.
  intros He. change (Prim2SF 1) with (S754_finite false 4503599627370496 (-52)).
  unfold SF64div, SFdiv, SFdiv_core_binary. cbn [xorb].
  change (Zdigits2 4503599627370496) with 53%Z.
  set (e' := Z.min _ (-52 - e)).
  assert (He' : (e' <= -52 - e)%Z) by (unfold e'; lia).
  set (m1 := match (-52 - e - e')%Z with
             | Zpos _ => Z.shiftl 4503599627370496 (-52 - e - e')
             | Z0 => 4503599627370496%Z
             | Zneg _ => 0%Z
             end).
  assert (H1 : (0 < m1 /\ Z.log2 m1 = 52 + (-52 - e - e'))%Z).
  { unfold m1. destruct (-52 - e - e')%Z as [|s|s] eqn:Es; try lia.
    - split; [lia | reflexivity].
    - split.
      + rewrite Z.shiftl_mul_pow2 by lia.
        apply Z.mul_pos_pos; [lia | apply Z.pow_pos_nonneg; lia].
      + rewrite Z.log2_shiftl by lia. reflexivity. }
  pose proof (Z.div_pos m1 (Zpos m) ltac:(lia) ltac:(lia)) as Hq.
  assert (Hqm : (m1 / Zpos m <= m1)%Z)
    by (apply Z.div_le_upper_bound; nia).
  unfold Z.div in Hq, Hqm. destruct (Z.div_eucl m1 (Zpos m)) as [q r].
  apply binary_round_aux_no_overflow; [exact Hq|].
  pose proof (Z.log2_le_mono _ _ Hqm). lia.
Qed.



(** *** [float(n)] *)

Lemma pos_iter_xO p d : Zpos (Pos.iter xO p d) = (Zpos p * 2 ^ Zpos d)%Z.
Proof.
  induction d as [|d IH] using Pos.peano_ind.
  - cbn [Pos.iter]. lia.
  - rewrite Pos.iter_succ, Pos2Z.inj_succ, Z.pow_succ_r by lia.
    rewrite Pos2Z.inj_xO, IH. ring.
Qed.

(** The length of an array that has an entry is a positive float, of
    exponent -52 at least. *)
Lemma of_len_decomposition n :
  (0 < n)%nat -> (Z.of_nat n < 9223372036854775808)%Z ->
  exists m e,
    Prim2SF (F64.of_len n) = S754_finite false m e /\ (-52 <= e)%Z.
Proof.
  intros Hn Hb. unfold F64.of_len.
  rewrite of_uint63_spec, Uint63.of_Z_spec.
  rewrite Z.mod_small
    by (change Uint63Axioms.wB with 9223372036854775808%Z; lia).
  destruct (Z.of_nat n) as [|p|p] eqn:E; try lia.
  pose proof (Z.log2_nonneg (Zpos p)) as HL.
  assert (Hl : (Z.log2 (Zpos p) < 63)%Z).
  { apply Z.log2_lt_pow2; [lia|].
    change (2 ^ 63)%Z with 9223372036854775808%Z. lia. }
  unfold binary_normalize, binary_round, shl_align.
  rewrite digits2_log2.
  destruct (fexp prec emax (Z.log2 (Zpos p) + 1 + 0) - 0)%Z as [|d|d] eqn:Ed;
    unfold fexp, SpecFloat.emin, prec, emax in Ed.
  - destruct (binary_round_aux_finite false p 0 loc_Exact)
      as (m & e & -> & He); [lia | lia |].
    exists m, e. split; [reflexivity | lia].
  - destruct (binary_round_aux_finite false p 0 loc_Exact)
      as (m & e & -> & He); [lia | lia |].
    exists m, e. split; [reflexivity | lia].
  - assert (Hlog : Z.log2 (Zpos (Pos.iter xO p d)) = 52%Z).
    { rewrite pos_iter_xO, Z.log2_mul_pow2 by lia. lia. }
    destruct (binary_round_aux_finite false (Pos.iter xO p d)
                (fexp prec emax (Z.log2 (Zpos p) + 1 + 0)) loc_Exact)
      as (m & e & -> & He);
      [unfold fexp, SpecFloat.emin, prec, emax; lia
      |rewrite Hlog; unfold fexp, SpecFloat.emin, prec, emax; lia
      |].
    exists m, e. split; [reflexivity|].
    unfold fexp, SpecFloat.emin, prec, emax in He. lia.
Qed.

Lemma of_len_positive n :
  (0 < n)%nat -> (Z.of_nat n < 9223372036854775808)%Z ->
  SFpositive (Prim2SF (F64.of_len n)).
Proof.
  intros Hn Hb. destruct (of_len_decomposition n Hn Hb) as (m & e & -> & _).
  exact I.
Qed.

(** [1.0/len(x)] is a finite number. *)
Lemma f64_inverse_length_finite n :
  (0 < n)%nat -> (Z.of_nat n < 9223372036854775808)%Z ->
  SFfinite (Prim2SF (1 / F64.of_len n)).
Proof.
  intros Hn Hb. rewrite div_spec.
  destruct (of_len_decomposition n Hn Hb) as (m & e & -> & He).
  now apply SFdiv_one_finite.
Qed.

(** *** Sums *)



Lemma f64_sum_zeros l : Forall (fun x => x = 0) l -> F64.sum l = 0.
Proof.
  unfold F64.sum. induction 1 as [|x l -> _ IH]; cbn [fold_left];
    [reflexivity | exact IH].
Qed.

(** *** Vectors of equal length *)

Lemma f64_bvec_same f u v :
  length u = length v -> F64.bvec f u v = Ok (map2 f u v).
Proof.
  intros H. unfold F64.bvec, bcast2.
  rewrite (proj2 (Nat.eqb_eq _ _) H). apply zipWithM_pure.
Qed.

Lemma f64_square_loss_same_length yhat y :
  length yhat = length y ->
  F64.square_loss yhat y
  = Ok (F64.mean (F64.square (map2 PrimFloat.sub yhat y))).
Proof.
  intros H. unfold F64.square_loss, F64.sub.
  now rewrite f64_bvec_same.
Qed.


Lemma f64_sub_equal a c :
  is_finite a = true -> (a =? c) = true -> SFzero (Prim2SF (a - c)).
Proof.
  intros Ha H. rewrite sub_spec.
  destruct (eqb_finite a c Ha H) as [[Za Zc]| <-].
  - now apply SFsub_zeros.
  - rewrite SFsub_diag; [exact I | now apply is_finite_SF].
Qed.

Lemma f64_square_of_zero d : SFzero (Prim2SF d) -> d * d = 0.
Proof.
  intros H. apply Prim2SF_inj. rewrite mul_spec.
  now rewrite SFmul_self_zero.
Qed.

Lemma f64_squares_equal yhat : forall y,
  Forall (fun x => is_finite x = true) yhat ->
  Forall2 (fun a c => (a =? c) = true) yhat y ->
  Forall (fun x => x = 0) (F64.square (map2 PrimFloat.sub yhat y)).
Proof.
  unfold F64.square.
  induction yhat as [|a yhat IH]; intros [|c y] Ha H; cbn [map2 map];
    try constructor.
  - inversion Ha; inversion H; subst.
    now apply f64_square_of_zero, f64_sub_equal.
  - inversion Ha; inversion H; subst. now apply IH.
Qed.


(* ------------------------------------------------------------------ *)
(** ** The loss in binary64 *)


(** The example of the specification: the predictions are the targets and
    the loss on them is 0. *)
Lemma f64_exact_example_predictions :
  F64.net F64.exact_example (F64.X F64.exact_example)
  = Ok (F64.y F64.exact_example).
Proof. reflexivity. Qed.

Lemma f64_exact_example_loss :
  F64.square_loss (F64.y F64.exact_example) (F64.y F64.exact_example) = Ok 0.
Proof. reflexivity. Qed.




(* ------------------------------------------------------------------ *)
(** ** A pass of the loop in binary64 *)

Lemma f64_columns_length c m : length (F64.columns c m) = c.
Proof. unfold F64.columns. now rewrite length_map, length_seq. Qed.

Lemma f64_dot_Ok u M r :
  F64.dot u M = Ok r ->
  length u = length (F64.rows M) /\ length r = F64.cols M.
Proof.
  unfold F64.dot.
  destruct (Nat.eqb_spec (length u) (length (F64.rows M))) as [E|E];
    [|discriminate].
  intros H. inversion H; subst.
  now rewrite length_map, f64_columns_length.
Qed.

(** When [get_gradient] returns, the gradient has one entry per weight and
    there is a sample. *)
Lemma f64_get_gradient_Ok G w0 x y0 g l :
  F64.get_gradient G w0 x y0 = Ok (g, l) ->
  length g = length (F64.w G) /\ F64.rows x <> [].
Proof.
  unfold F64.get_gradient, F64.net. intros H.
  inv_bind H. inv_bind E. inv_bind H. inv_bind H. inv_bind H. inv_bind H.
  inversion H; subst; clear H.
  apply f64_dot_Ok in E0. destruct E0 as [Ew _].
  cbn [F64.transpose F64.rows] in Ew. rewrite f64_columns_length in Ew.
  apply f64_dot_Ok in E3. destruct E3 as [_ Eg].
  destruct (F64.rows x) as [|r rs]; [discriminate E2|].
  split; [|discriminate]. unfold F64.scale. rewrite length_map. congruence.
Qed.


Lemma f64_abs_of_zero d : SFzero (Prim2SF d) -> PrimFloat.abs d = 0.
Proof.
  intros H. apply Prim2SF_inj. rewrite abs_spec.
  destruct (Prim2SF d); cbn in *; tauto.
Qed.

Lemma f64_eqb_refl x : is_finite x = true -> (x =? x) = true.
Proof.
  rewrite is_finite_SF, eqb_spec.
  destruct (Prim2SF x) as [s|s| |s m e]; cbn [SFfinite]; try tauto; intros _.
  unfold SFeqb. now rewrite SFcompare_refl.
Qed.

(** Taking a zero away from a finite number and the number away from the
    result leaves a zero, and the result compares equal to the number. *)
Lemma f64_sub_zero_and_back x z :
  is_finite x = true -> SFzero (Prim2SF z) ->
  ((x - z) =? x) = true /\ SFzero (Prim2SF ((x - z) - x)).
Proof.
  intros Hx Hz. pose proof (proj1 (is_finite_SF x) Hx) as Hf.
  destruct (Prim2SF x) as [s|s| |s m e] eqn:Ex; cbn in Hf; try tauto.
  - assert (Hxz : SFzero (Prim2SF (x - z))).
    { rewrite sub_spec, Ex. now apply SFsub_zeros. }
    split.
    + rewrite eqb_spec, Ex. destruct (Prim2SF (x - z)); cbn in *; tauto.
    + rewrite sub_spec. apply SFsub_zeros; [assumption | now rewrite Ex].
  - assert (Hxz : x - z = x).
    { apply Prim2SF_inj. rewrite sub_spec, Ex.
      apply SFsub_zero_r; cbn; tauto. }
    rewrite Hxz. split; [now apply f64_eqb_refl|].
    rewrite sub_spec, SFsub_diag; [exact I | now rewrite Ex].
Qed.

Lemma f64_zero_step wv : forall z,
  length wv = length z ->
  Forall (fun x => is_finite x = true) wv ->
  Forall (fun s => SFzero (Prim2SF s)) z ->
  Forall2 (fun c x => (c =? x) = true) (map2 PrimFloat.sub wv z) wv
  /\ Forall (fun d => d = 0)
            (F64.abs (map2 PrimFloat.sub (map2 PrimFloat.sub wv z) wv)).
Proof.
  unfold F64.abs.
  induction wv as [|x wv IH]; intros [|s z] Hl Hw Hz; cbn [map2 map];
    try discriminate; [split; constructor|].
  inversion Hw; inversion Hz; subst.
  destruct (f64_sub_zero_and_back x s) as [He Hd]; try assumption.
  destruct (IH z) as [IH1 IH2]; try assumption; [cbn in Hl; lia|].
  split; constructor; try assumption. now apply f64_abs_of_zero.
Qed.

(** The rest of a pass whose step [lr * gradient] is made of zeros: the
    candidate weights compare equal to the weights, the change is 0, and
    the pass converges exactly when the tolerance is positive. *)
Lemma f64_zero_step_update G g l :
  length g = length (F64.w G) ->
  Forall (fun x => is_finite x = true) (F64.w G) ->
  Forall (fun s => SFzero (Prim2SF s)) (F64.scale (F64.lr G) g) ->
  exists candidate,
    F64.sub (F64.w G) (F64.scale (F64.lr G) g) = Ok candidate
    /\ Forall2 (fun c x => (c =? x) = true) candidate (F64.w G)
    /\ ((0 <? F64.tolerance G) = true ->
        exists G', F64.update G g l = Ok (CONVERGED, G')
                   /\ F64.w G' = F64.w G /\ F64.epochs G' = F64.epochs G)
    /\ ((0 <? F64.tolerance G) = false ->
        exists G', F64.update G g l = Ok (RUNNING, G')
                   /\ F64.w G' = candidate).
Proof.
  intros Hlen Hw Hz.
  assert (Hls : length (F64.w G) = length (F64.scale (F64.lr G) g)).
  { unfold F64.scale. rewrite length_map. congruence. }
  destruct (f64_zero_step _ _ Hls Hw Hz) as [Heq Hd].
  exists (map2 PrimFloat.sub (F64.w G) (F64.scale (F64.lr G) g)).
  assert (Hsub : F64.sub (F64.w G) (F64.scale (F64.lr G) g)
                 = Ok (map2 PrimFloat.sub (F64.w G)
                            (F64.scale (F64.lr G) g)))
    by now apply f64_bvec_same.
  split; [exact Hsub|]. split; [exact Heq|].
  assert (Hbody : forall t, (0 <? F64.tolerance G) = t ->
            exists G', F64.update G g l
                       = Ok (if t then CONVERGED else RUNNING, G')
                       /\ (if t then F64.w G' = F64.w G
                                     /\ F64.epochs G' = F64.epochs G
                           else F64.w G'
                                = map2 PrimFloat.sub (F64.w G)
                                       (F64.scale (F64.lr G) g))).
  { intros t Ht. unfold F64.update.
    cbn [F64.set_gradient_loss F64.w F64.lr]. rewrite Hsub. cbn [Py.bind].
    cbn [F64.set_new_w F64.w F64.tolerance F64.epochs].
    unfold F64.sub at 1. rewrite f64_bvec_same
      by (rewrite map2_length by exact Hls; reflexivity).
    cbn [Py.bind].
    change (F64.w (F64.set_gradient_loss g l G)) with (F64.w G).
    change (F64.tolerance (F64.set_gradient_loss g l G))
      with (F64.tolerance G).
    rewrite (f64_sum_zeros _ Hd), Ht.
    destruct t; eexists; split; try reflexivity.
    split; reflexivity. }
  split; intros Ht; destruct (Hbody _ Ht) as (G' & HG' & Hr);
    exists G'; tauto.
Qed.


(* ------------------------------------------------------------------ *)
(** ** Learning rate 0, in binary64 *)








(* ------------------------------------------------------------------ *)
(** ** An exact fit, in binary64 *)

Lemma SFadd_zeros a c : SFzero a -> SFzero c -> SFzero (SF64add a c).
Proof.
  destruct a as [s|s| |s m e], c as [s'|s'| |s' m' e']; cbn; try tauto.
  destruct s, s'; cbn; tauto.
Qed.

Lemma f64_sum_from_zero l : forall acc,
  SFzero (Prim2SF acc) -> Forall (fun x => SFzero (Prim2SF x)) l ->
  SFzero (Prim2SF (fold_left PrimFloat.add l acc)).
Proof.
  induction l as [|x l IH]; intros acc Ha Hl; cbn [fold_left]; [assumption|].
  inversion Hl; subst. apply IH; [|assumption].
  rewrite add_spec. now apply SFadd_zeros.
Qed.

(** The dot product of a vector of zeros with a vector of finite numbers
    is a zero. *)
Lemma f64_dotv_zero e : forall c,
  Forall (fun x => SFzero (Prim2SF x)) e ->
  Forall (fun x => is_finite x = true) c ->
  SFzero (Prim2SF (F64.dotv e c)).
Proof.
  intros c He Hc. unfold F64.dotv, F64.sum.
  apply f64_sum_from_zero; [exact I|].
  revert c Hc. induction He as [|x e Hx _ IH]; intros [|t c] Hc; cbn [map2];
    try constructor.
  - inversion Hc; subst. rewrite mul_spec.
    apply SFmul_zero_l; [assumption | now apply is_finite_SF].
  - inversion Hc; subst. now apply IH.
Qed.

Lemma f64_column_finite k m :
  Forall (Forall (fun x => is_finite x = true)) m ->
  Forall (fun x => is_finite x = true) (F64.column k m).
Proof.
  unfold F64.column.
  induction 1 as [|r m Hr _ IH]; cbn [map]; constructor; [|exact IH].
  destruct (nth_in_or_default k r 0) as [Hin| ->]; [|reflexivity].
  rewrite Forall_forall in Hr. now apply Hr.
Qed.

Lemma f64_errors_zero yv : forall p,
  Forall (fun x => is_finite x = true) yv ->
  Forall2 (fun t q => (t =? q) = true) yv p ->
  Forall (fun x => SFzero (Prim2SF x)) (map2 PrimFloat.sub yv p).
Proof.
  induction yv as [|t yv IH]; intros [|q p] Hy H; cbn [map2];
    try constructor.
  - inversion Hy; inversion H; subst. now apply f64_sub_equal.
  - inversion Hy; inversion H; subst. now apply IH.
Qed.

Lemma f64_net_Ok G x p :
  F64.net G x = Ok p ->
  length (F64.w G) = F64.cols x /\ length p = length (F64.rows x).
Proof.
  unfold F64.net. intros H. inv_bind H. inversion H; subst; clear H.
  apply f64_dot_Ok in E. destruct E as [Ew Er].
  cbn [F64.transpose F64.rows F64.cols] in Ew, Er.
  rewrite f64_columns_length in Ew.
  unfold F64.add_scalar. rewrite length_map. tauto.
Qed.

(** What [get_gradient] returns on predictions [p], one per target. *)
Lemma f64_get_gradient_eq G w0 x y0 p :
  F64.net G x = Ok p -> length y0 = length p -> F64.rows x <> [] ->
  F64.get_gradient G w0 x y0
  = Ok (F64.scale (- (1 / F64.of_len (length (F64.rows x))))
                  (map (F64.dotv (map2 PrimFloat.sub y0 p))
                       (F64.columns (F64.cols x) (F64.rows x))),
        F64.mean (F64.square (map2 PrimFloat.sub y0 p))).
Proof.
  intros Hnet Hlen Hne.
  destruct (f64_net_Ok _ _ _ Hnet) as [_ Hp].
  unfold F64.get_gradient. rewrite Hnet. cbn [Py.bind].
  unfold F64.sub at 1. rewrite f64_bvec_same by assumption. cbn [Py.bind].
  destruct (Nat.eqb_spec (length (F64.rows x)) 0) as [E|E];
    [destruct (F64.rows x); [congruence | discriminate]|].
  cbn [Py.bind]. unfold F64.dot.
  rewrite map2_length by assumption.
  rewrite (proj2 (Nat.eqb_eq _ _) (eq_trans Hlen Hp)). cbn [Py.bind].
  rewrite f64_square_loss_same_length by assumption. reflexivity.
Qed.

(** X6.  An exact fit is a stationary point.  On finite data with at least
    one sample, finite weights and a finite learning rate, if every
    prediction compares equal to its target then [get_gradient] returns a
    gradient of zeros and the loss 0, and with a positive tolerance the
    loop converges in that pass and leaves the weights untouched. *)
Theorem f64_exact_fit_is_stationary (G : F64.globals) (p : list float) :
  F64.net G (F64.X G) = Ok p ->
  Forall2 (fun t q => (t =? q) = true) (F64.y G) p ->
  F64.rows (F64.X G) <> [] ->
  (Z.of_nat (length (F64.rows (F64.X G))) < 9223372036854775808)%Z ->
  Forall (fun x => is_finite x = true) (F64.y G) ->
  Forall (Forall (fun x => is_finite x = true)) (F64.rows (F64.X G)) ->
  Forall (fun x => is_finite x = true) (F64.w G) ->
  is_finite (F64.lr G) = true ->
  exists g,
    F64.get_gradient G (F64.w G) (F64.X G) (F64.y G) = Ok (g, 0)
    /\ Forall (fun x => is_zero x = true) g
    /\ ((0 <? F64.tolerance G) = true ->
        exists G',
          F64.loop_body G = Ok (CONVERGED, G')
          /\ F64.w G' = F64.w G /\ F64.epochs G' = F64.epochs G
          /\ forall fuel,
              F64.gradient_descent (S fuel) G = Ok (CONVERGED, G')).
Proof.
  intros Hnet Heq Hne Hb Hy HX Hw Hlr.
  pose proof (Forall2_length Heq) as Hlen.
  destruct (f64_net_Ok _ _ _ Hnet) as [_ Hp].
  assert (Hn : (0 < length (F64.rows (F64.X G)))%nat).
  { destruct (F64.rows (F64.X G)); [congruence | cbn; lia]. }
  pose proof (f64_get_gradient_eq G (F64.w G) _ _ _ Hnet Hlen Hne) as Hg.
  set (g := F64.scale _ _) in Hg.
  assert (Hloss : F64.mean (F64.square (map2 PrimFloat.sub (F64.y G) p)) = 0).
  { unfold F64.mean.
    rewrite (f64_sum_zeros _ (f64_squares_equal _ _ Hy Heq)).
    apply Prim2SF_inj. rewrite div_spec. apply SFdiv_zero; [reflexivity|].
    unfold F64.square. rewrite length_map, map2_length by assumption.
    rewrite Hlen, Hp. now apply of_len_positive. }
  rewrite Hloss in Hg.
  assert (Hz : Forall (fun x => SFzero (Prim2SF x)) g).
  { unfold g, F64.scale, F64.columns. rewrite !map_map.
    apply Forall_forall. intros z Hin. apply in_map_iff in Hin.
    destruct Hin as (k & <- & _). rewrite mul_spec.
    apply SFmul_zero_r.
    - rewrite opp_spec.
      pose proof (f64_inverse_length_finite _ Hn Hb) as Hi.
      destruct (Prim2SF (1 / F64.of_len _)); cbn in *; tauto.
    - apply f64_dotv_zero; [now apply f64_errors_zero|].
      now apply f64_column_finite. }
  exists g. split; [exact Hg|]. split.
  - apply Forall_forall. intros z Hin. apply is_zero_SF.
    rewrite Forall_forall in Hz. now apply Hz.
  - intros Ht.
    assert (Hstep : Forall (fun s => SFzero (Prim2SF s))
                           (F64.scale (F64.lr G) g)).
    { unfold F64.scale at 1. apply Forall_forall. intros z Hin.
      apply in_map_iff in Hin. destruct Hin as (x & <- & Hx).
      rewrite mul_spec. apply SFmul_zero_r; [now apply is_finite_SF|].
      rewrite Forall_forall in Hz. now apply Hz. }
    destruct (f64_get_gradient_Ok _ _ _ _ _ _ Hg) as [Hgl _].
    destruct (f64_zero_step_update G g 0 Hgl Hw Hstep)
      as (candidate & _ & _ & Hpos & _).
    destruct (Hpos Ht) as (G' & HG' & Hw' & He').
    assert (Hbody : F64.loop_body G = Ok (CONVERGED, G')).
    { unfold F64.loop_body. rewrite Hg. exact HG'. }
    exists G'. repeat (split; [assumption|]).
    intros fuel. cbn [F64.gradient_descent]. now rewrite Hbody.
Qed.

Lemma f64_exact_fit_is_stationary_witness :
  exists G',
    F64.gradient_descent 1 F64.exact_example = Ok (CONVERGED, G')
    /\ F64.w G' = F64.w F64.exact_example.
Proof.
  destruct (f64_exact_fit_is_stationary F64.exact_example
              (F64.y F64.exact_example))
    as (g & _ & _ & H).
  - reflexivity.
  - repeat constructor.
  - discriminate.
  - reflexivity.
  - repeat constructor.
  - repeat constructor.
  - repeat constructor.
  - reflexivity.
  - destruct (H eq_refl) as (G' & _ & Hw' & _ & Hrun).
    exists G'. split; [apply Hrun | exact Hw'].
Defined.

End Float64.
